(** * understanding-js: the worker-thread fan-out demo and the
      promise-versus-async comparison

    Two scripts of the repository are embedded here.

    - [WorkerThreads]: the script that, on the main thread, spawns a fixed
      number of worker threads running the same file and then installs a
      heartbeat interval, and that, on a worker thread, prints its
      [workerData] and spins on [Math.random()].
    - [PromiseVsAsync]: [promiseFn] and [asyncFn] of
      error-handling--promise-vs-async.js.
    - [PromiseChains]: the lines of that file that call them and chain
      [then(console.log)] and [catch(console.log)], with the promises, their
      reactions and the microtask queue. *)

From Stdlib Require Import ZArith Floats.
From stdpp Require Import base option list strings pretty.

Local Open Scope Z_scope.

Module WorkerThreads.

(** ** JavaScript values that occur in the script

    The script only handles [null] (the main thread's [workerData]), the
    loop counter and two string literals.  The counter is an integer-valued
    JavaScript number; it is embedded as a [Z] (integer arithmetic on doubles
    is exact below 2^53, far beyond any number of threads a host can run). *)

Inductive value :=
  | VNull
  | VUndefined
  | VNum (n : Z)
  | VStr (s : string).

#[global] Instance value_eq_dec : EqDecision value.
Proof. solve_decision. Defined.

#[global] Instance value_inhabited : Inhabited value := populate VUndefined.

(** What [console.log] prints for one argument: strings verbatim, numbers in
    decimal. *)
Definition display (v : value) : string :=
  match v with
  | VNull => "null"
  | VUndefined => "undefined"
  | VNum n => pretty n
  | VStr s => s
  end.

(** [console.log(a, b, ...)]: the arguments, displayed, separated by one
    space, make one line.  (None of the script's literals contains a format
    specifier.) *)
Fixpoint join_space (parts : list string) : string :=
  match parts with
  | [] => ""
  | [p] => p
  | p :: rest => p +:+ " " +:+ join_space rest
  end.

Definition console_log (args : list value) : string :=
  join_space (display <$> args).

(** ** Execution contexts *)

(** Program points of the script.  [PFor i] is the head of the
    [for (let i = 0; i < workerCount; ++i)] loop with the counter at [i];
    [PIdle] is the end of the main-thread branch, where only the event loop is
    left; [PLog] is the start of the worker branch; [PWhile] is the
    [while (true)] loop. *)
Inductive pc :=
  | PFor (i : Z)
  | PIdle
  | PLog
  | PWhile.

#[global] Instance pc_eq_dec : EqDecision pc.
Proof. solve_decision. Defined.

(** A repeating timer made by [setInterval(callback, delay, ...args)].  What
    a callback does is print lines. *)
Record timer := Timer {
  callback : list value → list string;
  delay : Z;
  args : list value;
  due : Z
}.

(** One thread: the values [isMainThread] and [workerData] that
    [require('worker_threads')] gives it, where it is in the script, and the
    timers of its event loop. *)
Record context := Context {
  isMainThread : bool;
  workerData : value;
  at_pc : pc;
  timers : list timer
}.

(** The top-level [if (isMainThread) ... else ...]. *)
Definition entry (main : bool) : pc :=
  if main then PFor 0 else PLog.

(** A thread starting to execute the file. *)
Definition boot (main : bool) (data : value) : context :=
  Context main data (entry main) [].

(** The arrow function [(a) => console.log(a)]. *)
Definition log_first_arg (actuals : list value) : list string :=
  [console_log [default VUndefined (actuals !! 0%nat)]].

(** What one statement asks of the host: [new Worker(__filename,
    { workerData })], [setInterval(callback, ms, ...actuals)],
    [console.log(...)] with the line it prints, and [Math.random()], whose
    result the script drops. *)
Inductive effect :=
  | ENewWorker (data : value)
  | ESetInterval (cb : list value → list string) (ms : Z) (actuals : list value)
  | ELog (line : string)
  | ERandom.

Section Script.

(** The number of workers; the source has the literal 8. *)
Variable workerCount : Z.

(** The next statement of a thread and the program point after it.  [None]:
    the script has run to its end. *)
Definition script (c : context) : option (effect * pc) :=
  match at_pc c with
  | PFor i =>
      if i <? workerCount
      then Some (ENewWorker (VNum i), PFor (i + 1))
      else Some (ESetInterval log_first_arg 1000 [VStr "Still alive!"], PIdle)
  | PIdle => None
  | PLog => Some (ELog (console_log [VStr "Started: "; workerData c]), PWhile)
  | PWhile => Some (ERandom, PWhile)
  end.

(** ** The system: all threads, the console, the clock *)

Record system := System {
  contexts : list context;
  stdout : list string;
  now : Z
}.

(** What an observer of a run sees. *)
Inductive event :=
  | EvSpawn (parent child : nat) (data : value)
  | EvSetInterval (owner : nat) (ms : Z)
  | EvLog (owner : nat) (line : string)
  | EvRandom (owner : nat)
  | EvTick (owner : nat) (lines : list string)
  | EvElapse (ms : Z).

(** What the scheduler may do next: let thread [k] run one statement, fire
    timer [j] of thread [k], or let time pass. *)
Inductive choice :=
  | Run (k : nat)
  | Fire (k j : nat)
  | Wait (ms : Z).

Definition move (c : context) (p : pc) : context :=
  Context (isMainThread c) (workerData c) p (timers c).

Definition add_timer (c : context) (t : timer) : context :=
  Context (isMainThread c) (workerData c) (at_pc c) (timers c ++ [t]).

Definition rearm (t : timer) (time : Z) : timer :=
  Timer (callback t) (delay t) (args t) (time + delay t).

Definition set_timers (c : context) (ts : list timer) : context :=
  Context (isMainThread c) (workerData c) (at_pc c) ts.

Definition is_idle (p : pc) : bool :=
  match p with PIdle => true | _ => false end.

Definition exec (ch : choice) (s : system) : option (event * system) :=
  match ch with
  | Run k =>
      c ← contexts s !! k;
      '(eff, p) ← script c;
      let c' := move c p in
      Some
        match eff with
        | ENewWorker data =>
            (EvSpawn k (length (contexts s)) data,
             System (<[k := c']> (contexts s) ++ [boot false data])
                    (stdout s) (now s))
        | ESetInterval cb ms actuals =>
            (EvSetInterval k ms,
             System (<[k := add_timer c' (Timer cb ms actuals (now s + ms))]>
                       (contexts s))
                    (stdout s) (now s))
        | ELog line =>
            (EvLog k line,
             System (<[k := c']> (contexts s)) (stdout s ++ [line]) (now s))
        | ERandom =>
            (EvRandom k, System (<[k := c']> (contexts s)) (stdout s) (now s))
        end
  | Fire k j =>
      c ← contexts s !! k;
      t ← timers c !! j;
      if is_idle (at_pc c) && (due t <=? now s)
      then
        let lines := callback t (args t) in
        Some (EvTick k lines,
              System
                (<[k := set_timers c (<[j := rearm t (now s)]> (timers c))]>
                   (contexts s))
                (stdout s ++ lines) (now s))
      else None
  | Wait ms =>
      if 0 <? ms
      then Some (EvElapse ms, System (contexts s) (stdout s) (now s + ms))
      else None
  end.

(** A run under a schedule: the events seen and the state reached, or [None]
    when the schedule asks for a step that is not enabled. *)
Fixpoint run (sched : list choice) (s : system)
  : option (list event * system) :=
  match sched with
  | [] => Some ([], s)
  | ch :: rest =>
      '(e, s1) ← exec ch s;
      '(tr, s2) ← run rest s1;
      Some (e :: tr, s2)
  end.

End Script.

(** [launch m]: the file started [m] times on a main thread, nothing run
    yet. *)
Definition launch (m : nat) : system :=
  System (replicate m (boot true VNull)) [] 0.

(** ** Observations on states and traces *)

(** The line a worker with identifier [id] prints, the line of the
    heartbeat, and the timer the script installs, due at [d]. *)
Definition started_line (id : Z) : string :=
  console_log [VStr "Started: "; VNum id].

Definition heartbeat_line : string := "Still alive!".

Definition heartbeat (d : Z) : timer :=
  Timer log_first_arg 1000 [VStr "Still alive!"] d.

(** The worker threads of a state, in creation order, and what each was
    given as [workerData]. *)
Definition workers (s : system) : list context :=
  filter (λ c, isMainThread c = false) (contexts s).

Definition worker_data (s : system) : list value :=
  workerData <$> workers s.

(** Who a thread is: the two values the host gave it. *)
Definition ident (c : context) : bool * value := (isMainThread c, workerData c).

(** A thread has terminated when its script has ended and its event loop has
    nothing left to do. *)
Definition terminated (c : context) : bool :=
  is_idle (at_pc c) && bool_decide (timers c = []).

(** The process lives as long as one of its threads does. *)
Definition alive (s : system) : bool :=
  existsb (λ c, negb (terminated c)) (contexts s).

(** Startup is over: every main thread has left its loop and every worker
    has printed. *)
Definition started_up (s : system) : bool :=
  forallb (λ c, if isMainThread c
                then bool_decide (at_pc c = PIdle)
                else bool_decide (at_pc c = PWhile))
          (contexts s).

(** What no step takes away from a thread. *)
Definition keeps (c c' : context) : Prop :=
  isMainThread c' = isMainThread c ∧ workerData c' = workerData c ∧
  (at_pc c = PWhile → at_pc c' = PWhile) ∧
  (at_pc c = PIdle → at_pc c' = PIdle) ∧
  (timers c ≠ [] → timers c' ≠ []).

(** The thread an event belongs to. *)
Definition owner (e : event) : option nat :=
  match e with
  | EvSpawn p _ _ => Some p
  | EvSetInterval k _ => Some k
  | EvLog k _ => Some k
  | EvRandom k => Some k
  | EvTick k _ => Some k
  | EvElapse _ => None
  end.

Definition events_by (k : nat) (tr : list event) : list event :=
  filter (λ e, owner e = Some k) tr.

(** The lines an event writes to the console. *)
Definition lines_of (e : event) : list string :=
  match e with
  | EvLog _ line => [line]
  | EvTick _ lines => lines
  | _ => []
  end.

(** The [workerData] of the spawn requests of a trace, in the order they
    were issued. *)
Definition spawn_request (e : event) : option value :=
  match e with EvSpawn _ _ data => Some data | _ => None end.

Definition spawned (tr : list event) : list value := omap spawn_request tr.

(** The number of timer ticks of a trace. *)
Definition is_tick (e : event) : bool :=
  match e with EvTick _ _ => true | _ => false end.

Definition ticks (tr : list event) : nat :=
  length (filter (λ e, is_tick e = true) tr).


(** The events only the main-thread branch of the script gives rise to. *)
Definition main_event (e : event) : bool :=
  match e with
  | EvSpawn _ _ _ | EvSetInterval _ _ | EvTick _ _ => true
  | _ => false
  end.

(** How often something occurs in a list: a line on the console, an
    identifier among those handed out. *)
Definition occurrences `{EqDecision A} (x : A) (l : list A) : nat :=
  length (filter (λ y, y = x) l).

(** ** The steps of the system as a relation

    The same steps as [exec], one constructor per statement of the script
    and per move of the host; used to reason by cases. *)
Inductive step (N : Z) : system → event → system → Prop :=
  | step_spawn s k c i :
      contexts s !! k = Some c → at_pc c = PFor i → i < N →
      step N s (EvSpawn k (length (contexts s)) (VNum i))
        (System (<[k := move c (PFor (i + 1))]> (contexts s)
                 ++ [boot false (VNum i)])
                (stdout s) (now s))
  | step_interval s k c i :
      contexts s !! k = Some c → at_pc c = PFor i → N ≤ i →
      step N s (EvSetInterval k 1000)
        (System (<[k := add_timer (move c PIdle)
                          (Timer log_first_arg 1000 [VStr "Still alive!"]
                                 (now s + 1000))]> (contexts s))
                (stdout s) (now s))
  | step_log s k c :
      contexts s !! k = Some c → at_pc c = PLog →
      step N s (EvLog k (console_log [VStr "Started: "; workerData c]))
        (System (<[k := move c PWhile]> (contexts s))
                (stdout s ++ [console_log [VStr "Started: "; workerData c]])
                (now s))
  | step_random s k c :
      contexts s !! k = Some c → at_pc c = PWhile →
      step N s (EvRandom k)
        (System (<[k := move c PWhile]> (contexts s)) (stdout s) (now s))
  | step_tick s k c j t :
      contexts s !! k = Some c → timers c !! j = Some t →
      at_pc c = PIdle → due t ≤ now s →
      step N s (EvTick k (callback t (args t)))
        (System (<[k := set_timers c (<[j := rearm t (now s)]> (timers c))]>
                   (contexts s))
                (stdout s ++ callback t (args t)) (now s))
  | step_wait s ms :
      0 < ms →
      step N s (EvElapse ms) (System (contexts s) (stdout s) (now s + ms)).

(** ** What holds of every state and trace of a run *)

(** The identifiers a main thread has handed out so far: the values its
    loop counter has gone through. *)
Definition issued (N : Z) (c : context) : list Z :=
  if isMainThread c
  then match at_pc c with
       | PFor i => seqZ 0 i
       | PIdle => seqZ 0 N
       | _ => []
       end
  else [].

(** What a thread was given, when it is a worker. *)
Definition given (c : context) : list value :=
  if isMainThread c then [] else [workerData c].

(** What a worker has printed, judged from where it is. *)
Definition printed (c : context) : list string :=
  if isMainThread c then []
  else match at_pc c with
       | PWhile => [console_log [VStr "Started: "; workerData c]]
       | _ => []
       end.

(** [evs] are the spawn requests of thread [k] for the identifiers [ids],
    in order. *)
Definition spawns_of (k : nat) (ids : list Z) (evs : list event) : Prop :=
  Forall2 (λ e id, ∃ child, e = EvSpawn k child (VNum id)) evs ids.

(** Thread [k], in state [c], has gone through the events [evs]: a main
    thread through the spawn requests its counter stands for and, once idle,
    the [setInterval] and then ticks only, none of them early; a worker
    through nothing, or through its line and then draws only. *)
Definition thread_inv (N : Z) (k : nat) (c : context) (evs : list event)
  : Prop :=
  if isMainThread c
  then workerData c = VNull ∧
       match at_pc c with
       | PFor i =>
           0 ≤ i ≤ Z.max 0 N ∧ timers c = [] ∧ spawns_of k (seqZ 0 i) evs
       | PIdle =>
           ∃ sp n d,
             timers c = [heartbeat d] ∧ 1000 * (Z.of_nat n + 1) ≤ d ∧
             spawns_of k (seqZ 0 N) sp ∧
             evs = sp ++ EvSetInterval k 1000
                        :: replicate n (EvTick k [heartbeat_line])
       | _ => False
       end
  else timers c = [] ∧
       ∃ id, workerData c = VNum id ∧
         match at_pc c with
         | PLog => evs = []
         | PWhile =>
             ∃ n, evs = EvLog k (started_line id) :: replicate n (EvRandom k)
         | _ => False
         end.

(** The state [s] and the trace [tr] that led to it fit together. *)
Record inv (N : Z) (tr : list event) (s : system) : Prop := Inv {
  inv_threads :
    ∀ k c, contexts s !! k = Some c → thread_inv N k c (events_by k tr);
  inv_fresh :
    ∀ k, (length (contexts s) ≤ k)%nat → events_by k tr = [];
  inv_ids :
    contexts s ≫= given ≡ₚ VNum <$> (contexts s ≫= issued N);
  inv_stdout :
    stdout s = tr ≫= lines_of;
  inv_lines :
    stdout s ≡ₚ (contexts s ≫= printed) ++ replicate (ticks tr) heartbeat_line;
  inv_now :
    0 ≤ now s;
  inv_children :
    ∀ p child d, EvSpawn p child d ∈ tr →
      ∃ c, contexts s !! child = Some c ∧
           isMainThread c = false ∧ workerData c = d
}.

(** The statements a thread still has to run before startup is over: two
    for every worker still to be spawned (the spawn and the worker's line),
    one for the timer, one for a worker that has not printed. *)
Definition pending (N : Z) (c : context) : nat :=
  if isMainThread c
  then match at_pc c with
       | PFor i => 2 * Z.to_nat (N - i) + 1
       | _ => 0
       end
  else match at_pc c with
       | PLog => 1
       | _ => 0
       end.

Definition remaining (N : Z) (s : system) : nat :=
  sum_list_with (pending N) (contexts s).

(** ** Schedules to run the model on

    The coordinator first, then each worker in turn: for one launch with
    eight workers, and for two launches with two workers each. *)
Definition eight_workers : list choice :=
  replicate 9 (Run 0) ++ (Run <$> seq 1 8).

Definition two_launches : list choice :=
  replicate 3 (Run 0) ++ replicate 3 (Run 1) ++ (Run <$> seq 2 4).

(** The first of them, and then two periods of the timer. *)
Definition eight_workers_and_two_ticks : list choice :=
  eight_workers ++ [Wait 1000; Fire 0 0; Wait 1000; Fire 0 0].

(** The coordinator alone, then [n] rounds of waiting a period and firing
    the timer. *)
Definition heartbeats (n : nat) : list choice :=
  Run 0 :: mjoin (replicate n [Wait 1000; Fire 0 0]).

End WorkerThreads.

Module PromiseVsAsync.

(** ** Values, promises and completions

    A JavaScript number is an IEEE 754 double: Rocq's primitive [float]. *)

Inductive value :=
  | VUndefined
  | VNum (x : float)
  | VStr (s : string).

Inductive promise :=
  | Pending
  | Fulfilled (v : value)
  | Rejected (reason : value).

(** How a function body ends: [return v] or [throw e]. *)
Inductive completion :=
  | Return (v : value)
  | Throw (e : value).

(** The two functions a promise executor is handed.  Only the first call
    settles the promise.  (The values resolved with here are numbers, never
    thenables.) *)
Definition resolve (v : value) (p : promise) : promise :=
  match p with Pending => Fulfilled v | _ => p end.

Definition reject (reason : value) (p : promise) : promise :=
  match p with Pending => Rejected reason | _ => p end.

(** An executor is a body that may settle the promise under construction. *)
Definition executor := promise → completion * promise.

(** [new Promise(executor)]: the executor runs at once; if it throws, the
    promise is rejected with what it threw. *)
Definition new_Promise (ex : executor) : promise :=
  match ex Pending with
  | (Return _, p) => p
  | (Throw e, p) => reject e p
  end.

(** [async (...) => body] without [await]: the promise of the body's
    completion. *)
Definition async (body : completion) : promise :=
  match body with
  | Return v => Fulfilled v
  | Throw e => Rejected e
  end.

Definition promiseFn (number : float) : promise :=
  new_Promise (λ p,
    if (0 <? number)%float
    then (Return VUndefined, resolve (VNum (number * 2)%float) p)
    else (Return VUndefined, reject (VStr "Nope") p)).

Definition asyncFn (number : float) : promise :=
  async (if (0 <? number)%float
         then Return (VNum (number * 2)%float)
         else Throw (VStr "Nope")).

End PromiseVsAsync.

Module PromiseChains.
Import PromiseVsAsync.

(** ** The callers: [f(x).then(console.log).catch(console.log)]

    The last four lines of error-handling--promise-vs-async.js chain a
    [then] and a [catch] on the promise each call returns.  Nothing is
    printed while the script runs: the handlers run later, as microtasks, in
    the order their jobs were queued. *)

(** A handler, by what it does: how it ends and what it prints. *)
Definition handler := value → completion * list value.

(** [console.log] as a handler: it prints its one argument and returns
    [undefined]. *)
Definition console_log : handler := λ v, (Return VUndefined, [v]).

(** What [then(onFulfilled, onRejected)] leaves on a promise: the two
    handlers (a missing one passes the outcome on) and the promise that
    [then] returned. *)
Record reaction := Reaction {
  onFulfilled : option handler;
  onRejected : option handler;
  derived : nat
}.

(** A promise object: its state and the reactions waiting for it to
    settle. *)
Record cell := Cell {
  state : promise;
  reactions : list reaction
}.

(** A microtask: a reaction and the outcome it reacts to. *)
Inductive job := Job (r : reaction) (outcome : promise).

(** The promises made so far (a promise is its index), the microtask queue
    and what has been printed. *)
Record heap := Heap {
  cells : list cell;
  queue : list job;
  console : list value
}.

Definition empty : heap := Heap [] [] [].

(** A promise that a call returned enters the heap. *)
Definition alloc (p : promise) (h : heap) : nat * heap :=
  (length (cells h), Heap (cells h ++ [Cell p []]) (queue h) (console h)).

(** [p.then(onF, onR)]: a new pending promise is returned; on a pending [p]
    the reaction waits, on a settled [p] its job is queued at once.  [None]:
    [p] is not a promise of the heap. *)
Definition then_ (p : nat) (onF onR : option handler) (h : heap)
  : option (nat * heap) :=
  let d := length (cells h) in
  let r := Reaction onF onR d in
  let cs := cells h ++ [Cell Pending []] in
  match cells h !! p with
  | Some (Cell Pending rs) =>
      Some (d, Heap (<[p := Cell Pending (rs ++ [r])]> cs)
                    (queue h) (console h))
  | Some (Cell outcome _) =>
      Some (d, Heap cs (queue h ++ [Job r outcome]) (console h))
  | None => None
  end.

(** [p.catch(onR)] is [p.then(undefined, onR)]. *)
Definition catch_ (p : nat) (onR : handler) (h : heap) : option (nat * heap) :=
  then_ p None (Some onR) h.

(** Promise [d] settles with [outcome]: only a pending promise does, and the
    jobs of its reactions are queued in the order they were attached. *)
Definition settle (d : nat) (outcome : promise) (h : heap) : heap :=
  match cells h !! d with
  | Some (Cell Pending rs) =>
      Heap (<[d := Cell outcome []]> (cells h))
           (queue h ++ ((λ r, Job r outcome) <$> rs))
           (console h)
  | _ => h
  end.

(** A handler runs on a value and settles the derived promise with how it
    ended. *)
Definition react (f : handler) (v : value) (d : nat) (h : heap) : heap :=
  let '(c, out) := f v in
  settle d (async c) (Heap (cells h) (queue h) (console h ++ out)).

(** One microtask. *)
Definition run_job (j : job) (h : heap) : heap :=
  let '(Job r outcome) := j in
  match outcome with
  | Pending => h
  | Fulfilled v =>
      match onFulfilled r with
      | Some f => react f v (derived r) h
      | None => settle (derived r) (Fulfilled v) h
      end
  | Rejected e =>
      match onRejected r with
      | Some f => react f e (derived r) h
      | None => settle (derived r) (Rejected e) h
      end
  end.

(** The microtask queue is run from the front, for at most [fuel] jobs. *)
Fixpoint drain (fuel : nat) (h : heap) : heap :=
  match fuel, queue h with
  | S n, j :: rest => drain n (run_job j (Heap (cells h) rest (console h)))
  | _, _ => h
  end.

(** The two functions of the file. *)
Inductive fn := PromiseFn | AsyncFn.

Definition call (f : fn) (x : float) : promise :=
  match f with
  | PromiseFn => promiseFn x
  | AsyncFn => asyncFn x
  end.

(** One line of the script: [f(x).then(console.log).catch(console.log)]. *)
Definition statement (f : fn) (x : float) (h : heap) : option heap :=
  let '(p, h1) := alloc (call f x) h in
  '(d, h2) ← then_ p (Some console_log) None h1;
  '(_, h3) ← catch_ d console_log h2;
  Some h3.

Fixpoint statements (calls : list (fn * float)) (h : heap) : option heap :=
  match calls with
  | [] => Some h
  | (f, x) :: rest => h1 ← statement f x h; statements rest h1
  end.

(** The four lines of the file. *)
Definition the_script : list (fn * float) :=
  [(PromiseFn, 2); (PromiseFn, -1); (AsyncFn, 2); (AsyncFn, -1)]%float.

(** A batch of lines, and then the microtasks, for at most [fuel] jobs. *)
Definition run_batch (fuel : nat) (calls : list (fn * float)) (h : heap)
  : option heap :=
  drain fuel <$> statements calls h.

(** ** What a batch of such lines prints *)

(** The numbers that are doubled, and those that are refused. *)
Definition accepted (calls : list (fn * float)) : list float :=
  filter (λ x, (0 <? x)%float = true) (snd <$> calls).

Definition refused (calls : list (fn * float)) : list float :=
  filter (λ x, (0 <? x)%float = false) (snd <$> calls).

Definition printed_by (calls : list (fn * float)) : list value :=
  ((λ x, VNum (x * 2)%float) <$> accepted calls)
  ++ ((λ _, VStr "Nope") <$> refused calls).

(** ** The two microtasks of a chain

    A chain is known by the outcome [st] of its call and by the index [d] of
    the promise its [then] returned; the promise its [catch] returned is
    [d + 1]. *)

(** The job of [then(console.log)] and the job of [catch(console.log)]. *)
Definition then_job (c : promise * nat) : job :=
  Job (Reaction (Some console_log) None c.2) c.1.

(** The outcome of the promise that [then(console.log)] returned. *)
Definition after_then (st : promise) : promise :=
  match st with
  | Fulfilled _ => Fulfilled VUndefined
  | _ => st
  end.

Definition catch_job (c : promise * nat) : job :=
  Job (Reaction None (Some console_log) (S c.2)) (after_then c.1).

(** What each of the two prints. *)
Definition then_prints (st : promise) : list value :=
  match st with Fulfilled v => [v] | _ => [] end.

Definition catch_prints (st : promise) : list value :=
  match st with Rejected e => [e] | _ => [] end.

(** The promise a pending [then] result holds while its [catch] waits. *)
Definition awaiting_catch (d : nat) : cell :=
  Cell Pending [Reaction None (Some console_log) (S d)].

(** The chains of a batch of lines run on a heap of [base] promises, and
    the promises the lines add. *)
Fixpoint chains_of (base : nat) (calls : list (fn * float))
  : list (promise * nat) :=
  match calls with
  | [] => []
  | (f, x) :: rest => (call f x, S base) :: chains_of (3 + base) rest
  end.

Fixpoint layout (base : nat) (calls : list (fn * float)) : list cell :=
  match calls with
  | [] => []
  | (f, x) :: rest =>
      [Cell (call f x) []; awaiting_catch (S base); Cell Pending []]
      ++ layout (3 + base) rest
  end.

End PromiseChains.


Module WorkerThreadsSpec.
Import WorkerThreads.

(** ** [exec] and [step] describe the same moves *)

Lemma exec_step N ch s e s' : exec N ch s = Some (e, s') → step N s e s'.
Proof.
  destruct ch as [k|k j|ms]; cbn.
  - destruct (contexts s !! k) as [c|] eqn:Hc; [cbn|done].
    unfold script. destruct (at_pc c) as [i| | |] eqn:Hpc; cbn; [|done| |].
    + destruct (Z.ltb_spec i N); cbn; intros [= <- <-].
      * by eapply step_spawn.
      * by eapply step_interval.
    + intros [= <- <-]. by eapply step_log.
    + intros [= <- <-]. by eapply step_random.
  - destruct (contexts s !! k) as [c|] eqn:Hc; [cbn|done].
    destruct (timers c !! j) as [t|] eqn:Ht; [cbn|done].
    destruct (at_pc c) eqn:Hpc; cbn; try done.
    destruct (Z.leb_spec (due t) (now s)); [|done].
    intros [= <- <-]. by eapply step_tick.
  - destruct (Z.ltb_spec 0 ms); [|done].
    intros [= <- <-]. by eapply step_wait.
Qed.

Lemma step_exec N s e s' : step N s e s' → ∃ ch, exec N ch s = Some (e, s').
Proof.
  destruct 1 as [s k c i Hc Hpc Hi|s k c i Hc Hpc Hi|s k c Hc Hpc
                |s k c Hc Hpc|s k c j t Hc Ht Hpc Hd|s ms Hms].
  - exists (Run k). cbn. rewrite Hc. cbn. unfold script. rewrite Hpc.
    by destruct (Z.ltb_spec i N); [|lia].
  - exists (Run k). cbn. rewrite Hc. cbn. unfold script. rewrite Hpc.
    by destruct (Z.ltb_spec i N); [lia|].
  - exists (Run k). cbn. rewrite Hc. cbn. unfold script. by rewrite Hpc.
  - exists (Run k). cbn. rewrite Hc. cbn. unfold script. by rewrite Hpc.
  - exists (Fire k j). cbn. rewrite Hc. cbn. rewrite Ht. cbn. rewrite Hpc. cbn.
    by destruct (Z.leb_spec (due t) (now s)); [|lia].
  - exists (Wait ms). cbn. by destruct (Z.ltb_spec 0 ms); [|lia].
Qed.

(** ** Runs *)

Lemma run_app N a b s :
  run N (a ++ b) s =
  '(t1, s1) ← run N a s; '(t2, s2) ← run N b s1; Some (t1 ++ t2, s2).
Proof.
  revert s. induction a as [|ch a IH]; intros s; cbn.
  - by destruct (run N b s) as [[]|].
  - destruct (exec N ch s) as [[e s1]|]; cbn; [|done].
    rewrite IH. destruct (run N a s1) as [[t1 s2]|]; cbn; [|done].
    by destruct (run N b s2) as [[]|].
Qed.

(** Induction over the states and traces a run goes through. *)
Lemma run_ind N s0 (P : list event → system → Prop) :
  P [] s0 →
  (∀ tr s e s', P tr s → step N s e s' → P (tr ++ [e]) s') →
  ∀ sched tr s, run N sched s0 = Some (tr, s) → P tr s.
Proof.
  intros H0 Hstep sched.
  induction sched as [|ch sched IH] using rev_ind; intros tr s.
  - cbn. by intros [= <- <-].
  - rewrite run_app.
    destruct (run N sched s0) as [[t1 s1]|] eqn:Hrun; cbn; [|done].
    destruct (exec N ch s1) as [[e s2]|] eqn:Hex; cbn; [|done].
    intros [= <- <-]. eapply Hstep; [by apply IH|by eapply exec_step].
Qed.

(** ** The invariant is kept by every step *)

Lemma events_by_snoc k tr e :
  events_by k (tr ++ [e]) =
  events_by k tr ++ (if decide (owner e = Some k) then [e] else []).
Proof.
  unfold events_by. by rewrite filter_app.
Qed.

Lemma ticks_snoc tr e :
  ticks (tr ++ [e]) = (ticks tr + if is_tick e then 1 else 0)%nat.
Proof.
  unfold ticks. rewrite filter_app, length_app. f_equal.
  by destruct e.
Qed.

Lemma bind_insert_perm {A B} (f : A → list B) l k x y extra :
  l !! k = Some x → f y ≡ₚ f x ++ extra →
  <[k:=y]> l ≫= f ≡ₚ (l ≫= f) ++ extra.
Proof.
  intros Hk Hf. revert k Hk.
  induction l as [|a l IH]; intros [|k] Hk; simplify_eq/=.
  - rewrite Hf. by rewrite <-!(assoc (++)), (comm (++) extra).
  - rewrite IH by done. by rewrite (assoc (++)).
Qed.

Lemma bind_insert_same {A B} (f : A → list B) l k x y :
  l !! k = Some x → f y = f x → <[k:=y]> l ≫= f = l ≫= f.
Proof.
  intros Hk Hf. revert k Hk.
  induction l as [|a l IH]; intros [|k] Hk; simplify_eq/=.
  - by rewrite Hf.
  - by rewrite IH.
Qed.

Lemma lookup_updated (cs : list context) k0 c0' news k c :
  (k0 < length cs)%nat →
  (<[k0:=c0']> cs ++ news) !! k = Some c →
  (k = k0 ∧ c = c0') ∨
  (k ≠ k0 ∧ cs !! k = Some c) ∨
  ((length cs ≤ k)%nat ∧ news !! (k - length cs)%nat = Some c).
Proof.
  intros Hk0 Hk.
  destruct (decide (k < length cs)%nat) as [Hlt|Hge].
  - rewrite lookup_app_l in Hk by (by rewrite length_insert).
    destruct (decide (k = k0)) as [->|Hne].
    + rewrite list_lookup_insert_eq in Hk by done. left. by simplify_eq.
    + rewrite list_lookup_insert_ne in Hk by done. right. by left.
  - rewrite lookup_app_r in Hk by (rewrite length_insert; lia).
    rewrite length_insert in Hk. right. right. split; [lia|done].
Qed.

Lemma inv_update N tr s k0 c0 c0' e new_ids plus s' :
  inv N tr s →
  contexts s !! k0 = Some c0 →
  owner e = Some k0 →
  isMainThread c0' = isMainThread c0 →
  workerData c0' = workerData c0 →
  contexts s' = <[k0:=c0']> (contexts s)
                ++ ((λ i, boot false (VNum i)) <$> new_ids) →
  stdout s' = stdout s ++ lines_of e →
  now s' = now s →
  thread_inv N k0 c0' (events_by k0 tr ++ [e]) →
  issued N c0' = issued N c0 ++ new_ids →
  (∀ p child d, e = EvSpawn p child d →
     child = length (contexts s) ∧
     new_ids = match d with VNum i => [i] | _ => [] end ∧
     ∃ i, d = VNum i) →
  (spawn_request e = None → new_ids = []) →
  printed c0' = printed c0 ++ plus →
  lines_of e
  = plus ++ replicate (if is_tick e then 1 else 0)%nat heartbeat_line →
  inv N (tr ++ [e]) s'.
Proof.
  intros [Hth Hfresh Hids Hout Hlines Hnow Hch] Hk0 Hown Hmain Hdata Hcs Hso Hn
    Hth0 Hiss Hsp Hnosp Hpr Hle.
  assert (Hlt0 : (k0 < length (contexts s))%nat) by by eapply lookup_lt_Some.
  assert (Hnews : new_ids = [] ∨
                  ∃ i child, new_ids = [i] ∧ e = EvSpawn k0 child (VNum i)
                             ∧ child = length (contexts s)).
  { destruct (spawn_request e) as [d|] eqn:He; [|left; by apply Hnosp].
    destruct e; simplify_eq/=.
    destruct (Hsp _ _ _ eq_refl) as (-> & -> & i & ->). right. eauto. }
  split.
  - intros k c. rewrite Hcs. intros Hk. rewrite events_by_snoc.
    destruct (lookup_updated _ _ _ _ _ _ Hlt0 Hk)
      as [[-> ->]|[[Hne Hk']|[Hge Hk']]].
    + by rewrite decide_True.
    + rewrite decide_False by congruence. rewrite app_nil_r. by apply Hth.
    + rewrite decide_False by (rewrite Hown; intros [=]; lia).
      rewrite app_nil_r, Hfresh by done.
      destruct Hnews as [->|(i & child & -> & -> & ->)]; [done|].
      destruct (k - length (contexts s))%nat as [|[]]; simplify_eq/=.
      unfold thread_inv; cbn. eauto.
  - intros k. rewrite Hcs, length_app, length_insert. intros Hk.
    rewrite events_by_snoc, decide_False by (rewrite Hown; intros [=]; lia).
    rewrite app_nil_r. apply Hfresh. lia.
  - rewrite Hcs, !bind_app.
    rewrite (bind_insert_same given _ _ c0)
      by (done || by unfold given; rewrite Hmain, Hdata).
    rewrite (bind_insert_perm (issued N) _ _ c0 _ new_ids)
      by (done || by rewrite Hiss).
    rewrite Hids, !fmap_app.
    assert (((λ i : Z, boot false (VNum i)) <$> new_ids) ≫= issued N = [])
      as ->.
    { by destruct Hnews as [->|(i & child & -> & _)]. }
    assert (((λ i : Z, boot false (VNum i)) <$> new_ids) ≫= given
            = VNum <$> new_ids) as ->.
    { by destruct Hnews as [->|(i & child & -> & _)]. }
    by rewrite app_nil_r.
  - by rewrite Hso, Hout, bind_app, bind_singleton.
  - rewrite Hso, Hcs, bind_app, ticks_snoc, replicate_add, Hle.
    rewrite (bind_insert_perm printed _ _ c0 _ plus)
      by (done || by rewrite Hpr).
    assert (((λ i : Z, boot false (VNum i)) <$> new_ids) ≫= printed = []) as ->.
    { by destruct Hnews as [->|(i & child & -> & _)]. }
    rewrite Hlines, app_nil_r. rewrite <-!(assoc (++)). f_equiv.
    by rewrite (assoc (++)), (comm (++) _ plus), <-(assoc (++)).
  - lia.
  - intros p child d. rewrite elem_of_app, list_elem_of_singleton.
    intros [Hin| <-].
    + destruct (Hch _ _ _ Hin) as (c & Hc & Hm & Hd). rewrite Hcs.
      assert (child < length (contexts s))%nat by by eapply lookup_lt_Some.
      rewrite lookup_app_l by (by rewrite length_insert).
      destruct (decide (child = k0)) as [->|Hne].
      * rewrite list_lookup_insert_eq by done. exists c0'. simplify_eq. eauto.
      * rewrite list_lookup_insert_ne by done. eauto.
    + destruct Hnews as [->|(i & child' & -> & ? & ?)]; simplify_eq/=.
      { by destruct (Hsp _ _ _ eq_refl) as (_ & ? & i & ->). }
      exists (boot false (VNum i)). split; [|done].
      rewrite Hcs, lookup_app_r by (by rewrite length_insert).
      by rewrite length_insert, Nat.sub_diag.
Qed.

Lemma spawns_of_snoc k ids evs child i :
  spawns_of k ids evs →
  spawns_of k (ids ++ [i]) (evs ++ [EvSpawn k child (VNum i)]).
Proof.
  intros H. apply Forall2_app; [done|]. repeat constructor. by exists child.
Qed.

Lemma seqZ_snoc i : 0 ≤ i → seqZ 0 (i + 1) = seqZ 0 i ++ [i].
Proof.
  intros Hi. rewrite seqZ_app by lia.
  rewrite (seqZ_cons _ 1) by lia. by rewrite (seqZ_nil _ (Z.pred 1)) by lia.
Qed.

Lemma seqZ_loop_exit N i : 0 ≤ i ≤ Z.max 0 N → N ≤ i → seqZ 0 i = seqZ 0 N.
Proof.
  intros Hi HN. destruct (decide (N ≤ 0)).
  - by rewrite !seqZ_nil by lia.
  - f_equal. lia.
Qed.

Lemma inv_wait N tr s ms :
  inv N tr s → 0 < ms →
  inv N (tr ++ [EvElapse ms]) (System (contexts s) (stdout s) (now s + ms)).
Proof.
  intros [Hth Hfresh Hids Hout Hlines Hnow Hch] Hms. split; cbn.
  - intros k c Hk. rewrite events_by_snoc, decide_False, app_nil_r by done.
    by apply Hth.
  - intros k Hk. rewrite events_by_snoc, decide_False, app_nil_r by done.
    by apply Hfresh.
  - done.
  - by rewrite bind_app, <-Hout, app_nil_r.
  - by rewrite ticks_snoc, Nat.add_0_r.
  - lia.
  - intros p child d. rewrite elem_of_app, list_elem_of_singleton.
    intros [Hin|[=]]. eauto.
Qed.

Lemma inv_step N tr s e s' :
  inv N tr s → step N s e s' → inv N (tr ++ [e]) s'.
Proof.
  intros Hinv Hstep.
  destruct Hstep as [s k c i Hc Hpc Hi|s k c i Hc Hpc Hi|s k c Hc Hpc
                    |s k c Hc Hpc|s k c j t Hc Ht Hpc Hd|s ms Hms];
    [pose proof (inv_threads _ _ _ Hinv _ _ Hc) as Hth;
     unfold thread_inv in Hth; rewrite Hpc in Hth;
     destruct (isMainThread c) eqn:Hmain..|].
  - destruct Hth as (Hdata & Hrange & Htm & Hsp).
    eapply (inv_update _ _ _ k c (move c (PFor (i + 1))) _ [i] []);
      try done; unfold thread_inv, issued, printed; cbn;
      rewrite ?Hmain, ?Hpc, ?app_nil_r; try done.
    + split; [done|]. split; [lia|]. split; [done|].
      rewrite seqZ_snoc by lia. by apply spawns_of_snoc.
    + apply seqZ_snoc. lia.
    + intros p child d [= <- <- <-]. eauto.
  - by destruct Hth as (_ & ? & _ & []).
  - destruct Hth as (Hdata & Hrange & Htm & Hsp).
    eapply (inv_update _ _ _ k c
              (add_timer (move c PIdle) (heartbeat (now s + 1000))) _ [] []);
      try done; unfold thread_inv, issued, printed; cbn;
      rewrite ?Hmain, ?Hpc, ?app_nil_r; try done.
    + split; [done|].
      exists (events_by k tr), 0%nat, (now s + 1000). rewrite Htm.
      split; [done|]. split; [pose proof (inv_now _ _ _ Hinv); lia|].
      split; [|done]. by rewrite <-(seqZ_loop_exit N i).
    + symmetry. by apply seqZ_loop_exit.
  - by destruct Hth as (_ & ? & _ & []).
  - by destruct Hth as (_ & []).
  - destruct Hth as (Htm & id & Hdata & Hevs).
    eapply (inv_update _ _ _ k c (move c PWhile) _ []
              [console_log [VStr "Started: "; workerData c]]);
      try done; unfold thread_inv, issued, printed; cbn;
      rewrite ?Hmain, ?Hpc, ?app_nil_r; try done.
    split; [done|].
    exists id. split; [done|]. exists 0%nat. by rewrite Hevs, Hdata.
  - by destruct Hth as (_ & []).
  - destruct Hth as (Htm & id & Hdata & n & Hevs).
    eapply (inv_update _ _ _ k c (move c PWhile) _ [] []);
      try done; unfold thread_inv, issued, printed; cbn;
      rewrite ?Hmain, ?Hpc, ?app_nil_r; try done.
    split; [done|].
    exists id. split; [done|]. exists (S n).
    by rewrite Hevs, replicate_S_end.
  - destruct Hth as (Hdata & sp & n & d & Htm & Hdue & Hsp & Hevs).
    rewrite Htm in Ht. destruct j as [|j]; [|done]. simplify_eq/=.
    eapply (inv_update _ _ _ k c (set_timers c [heartbeat (now s + 1000)])
              _ [] []);
      try done; unfold thread_inv, issued, printed; cbn;
      rewrite ?Hmain, ?Hpc, ?Htm, ?app_nil_r; try done.
    split; [done|].
    exists sp, (S n), (now s + 1000).
    split; [done|]. split; [lia|]. split; [done|].
    by rewrite Hevs, replicate_S_end, <-(assoc (++)).
  - by destruct Hth as (_ & ? & _ & []).
  - by apply inv_wait.
Qed.

(** ** The invariant holds along every run *)

Lemma bind_replicate_nil {A B} (f : A → list B) n x :
  f x = [] → replicate n x ≫= f = [].
Proof. intros Hf. induction n as [|n IH]; cbn; [done|]. by rewrite Hf, IH. Qed.

Lemma inv_launch N m : inv N [] (launch m).
Proof.
  split; cbn; try done.
  - intros k c [-> _]%lookup_replicate. unfold thread_inv; cbn.
    repeat split; [lia..|]. constructor.
  - by rewrite !bind_replicate_nil.
  - by rewrite bind_replicate_nil.
  - intros p child d []%elem_of_nil.
Qed.

Lemma inv_run N m sched tr s :
  run N sched (launch m) = Some (tr, s) → inv N tr s.
Proof.
  apply (run_ind N (launch m) (inv N)).
  - apply inv_launch.
  - intros. by eapply inv_step.
Qed.

(** ** Who a thread is never changes, and threads are added at the end *)


Lemma ident_insert (cs : list context) k c c' :
  cs !! k = Some c → ident c' = ident c → ident <$> <[k:=c']> cs = ident <$> cs.
Proof.
  intros Hk Hid. rewrite list_fmap_insert, Hid.
  apply list_insert_id. by rewrite list_lookup_fmap, Hk.
Qed.

Lemma step_ident N s e s' :
  step N s e s' →
  ident <$> contexts s' =
  (ident <$> contexts s) ++ ((λ d, (false, d)) <$> spawned [e]).
Proof.
  destruct 1; cbn; rewrite ?fmap_app, ?app_nil_r;
    by erewrite ?ident_insert by done.
Qed.

Lemma spawned_app t1 t2 : spawned (t1 ++ t2) = spawned t1 ++ spawned t2.
Proof. apply omap_app. Qed.

Lemma ident_run N m sched tr s :
  run N sched (launch m) = Some (tr, s) →
  ident <$> contexts s =
  replicate m (true, VNull) ++ ((λ d, (false, d)) <$> spawned tr).
Proof.
  apply (run_ind N (launch m)
           (λ tr s, ident <$> contexts s =
                    replicate m (true, VNull)
                    ++ ((λ d, (false, d)) <$> spawned tr))).
  - cbn. by rewrite fmap_replicate, app_nil_r.
  - intros tr0 s0 e s1 IH Hstep.
    rewrite (step_ident _ _ _ _ Hstep), IH, spawned_app, fmap_app.
    by rewrite (assoc (++)).
Qed.

Lemma workers_ident (cs : list context) :
  workerData <$> filter (λ c, isMainThread c = false) cs =
  snd <$> filter (λ p, p.1 = false) (ident <$> cs).
Proof.
  induction cs as [|c cs IH]; [done|].
  rewrite fmap_cons. destruct (isMainThread c) eqn:Hm.
  - rewrite !filter_cons_False by (cbn; congruence). done.
  - rewrite !filter_cons_True by done. cbn. by rewrite IH.
Qed.

Lemma filter_workers_spawned (ds : list value) :
  snd <$> filter (λ p : bool * value, p.1 = false) ((λ d, (false, d)) <$> ds)
  = ds.
Proof.
  induction ds as [|d ds IH]; [done|].
  by rewrite fmap_cons, filter_cons_True, fmap_cons, IH.
Qed.

Lemma filter_mains_nil (m : nat) :
  filter (λ p : bool * value, p.1 = false) (replicate m (true, VNull)) = [].
Proof. induction m; [done|]. by rewrite replicate_S, filter_cons_False. Qed.

(** The workers of a state are exactly the spawn requests of the run, in
    the order they were issued. *)
Lemma worker_data_spawned N m sched tr s :
  run N sched (launch m) = Some (tr, s) → worker_data s = spawned tr.
Proof.
  intros Hrun. unfold worker_data, workers.
  rewrite workers_ident, (ident_run _ _ _ _ _ Hrun), filter_app, fmap_app.
  by rewrite filter_mains_nil, filter_workers_spawned.
Qed.

Lemma lookup_main N m sched tr s k c :
  run N sched (launch m) = Some (tr, s) →
  contexts s !! k = Some c →
  isMainThread c = bool_decide (k < m)%nat.
Proof.
  intros Hrun Hk.
  assert (Hid : (ident <$> contexts s) !! k = Some (ident c))
    by by rewrite list_lookup_fmap, Hk.
  rewrite (ident_run _ _ _ _ _ Hrun) in Hid.
  apply lookup_app_Some in Hid as [Hid|[Hge Hid]].
  - apply lookup_replicate in Hid as [[= -> _] Hlt].
    by rewrite bool_decide_true.
  - rewrite length_replicate in Hge.
    rewrite list_lookup_fmap in Hid.
    destruct (spawned tr !! _); [|done]. injection Hid as [= <- _].
    by rewrite bool_decide_false by lia.
Qed.

(** ** Which thread does what *)


Lemma elem_of_replicate_inv {A} (x y : A) n : x ∈ replicate n y → x = y.
Proof. by intros [-> _]%elem_of_replicate. Qed.

Lemma spawns_of_elem k ids evs e :
  spawns_of k ids evs → e ∈ evs →
  ∃ child id, e = EvSpawn k child (VNum id) ∧ id ∈ ids.
Proof.
  intros Hsp He. induction Hsp as [|e' id evs ids [child ->] _ IH].
  - by apply elem_of_nil in He.
  - apply elem_of_cons in He as [->|He].
    + exists child, id. split; [done|]. left.
    + destruct (IH He) as (child' & id' & -> & Hin).
      exists child', id'. split; [done|]. by right.
Qed.

(** An event of a trace belongs to a thread that exists; spawn requests,
    timer installations and ticks belong to main threads, console lines of
    the script and random draws to workers. *)
Lemma event_thread N tr s e k :
  inv N tr s → e ∈ tr → owner e = Some k →
  ∃ c, contexts s !! k = Some c ∧ isMainThread c = main_event e.
Proof.
  intros Hinv He Hown.
  assert (Hin : e ∈ events_by k tr) by by apply list_elem_of_filter.
  destruct (contexts s !! k) as [c|] eqn:Hk.
  2: { apply lookup_ge_None in Hk.
       rewrite (inv_fresh _ _ _ Hinv k Hk) in Hin.
       by apply elem_of_nil in Hin. }
  exists c. split; [done|].
  pose proof (inv_threads _ _ _ Hinv _ _ Hk) as Hth. unfold thread_inv in Hth.
  destruct (isMainThread c), (at_pc c);
    try (by destruct Hth as (_ & []));
    try (by destruct Hth as (_ & ? & _ & [])).
  - destruct Hth as (_ & _ & _ & Hsp).
    by destruct (spawns_of_elem _ _ _ _ Hsp Hin) as (? & ? & -> & _).
  - destruct Hth as (_ & sp & n & d & _ & _ & Hsp & Hevs).
    rewrite Hevs in Hin.
    apply elem_of_app in Hin as [Hin|Hin].
    + by destruct (spawns_of_elem _ _ _ _ Hsp Hin) as (? & ? & -> & _).
    + apply elem_of_cons in Hin as [->|Hin]; [done|].
      by apply elem_of_replicate_inv in Hin as ->.
  - destruct Hth as (_ & id & _ & Hevs). rewrite Hevs in Hin.
    by apply elem_of_nil in Hin.
  - destruct Hth as (_ & id & _ & n & Hevs). rewrite Hevs in Hin.
    apply elem_of_cons in Hin as [->|Hin]; [done|].
    by apply elem_of_replicate_inv in Hin as ->.
Qed.

Lemma event_index N m sched tr s e k :
  run N sched (launch m) = Some (tr, s) → e ∈ tr → owner e = Some k →
  main_event e = bool_decide (k < m)%nat.
Proof.
  intros Hrun He Hown.
  destruct (event_thread N tr s e k) as (c & Hk & <-);
    [by eapply inv_run|done..|].
  by eapply lookup_main.
Qed.

(** ** The spawn requests of a main thread *)

Lemma spawned_spawns_of k ids evs :
  spawns_of k ids evs → spawned evs = VNum <$> ids.
Proof.
  induction 1 as [|e id evs ids [child ->] _ IH]; [done|].
  cbn. by rewrite <-IH.
Qed.

Lemma spawned_ticks n k lines : spawned (replicate n (EvTick k lines)) = [].
Proof. induction n; [done|]. by cbn. Qed.

Lemma spawned_main N tr s k c :
  inv N tr s → contexts s !! k = Some c →
  spawned (events_by k tr) = VNum <$> issued N c.
Proof.
  intros Hinv Hk.
  pose proof (inv_threads _ _ _ Hinv _ _ Hk) as Hth.
  unfold thread_inv in Hth. unfold issued.
  destruct (isMainThread c), (at_pc c);
    try (by destruct Hth as (_ & []));
    try (by destruct Hth as (_ & ? & _ & [])).
  - destruct Hth as (_ & _ & _ & Hsp). by eapply spawned_spawns_of.
  - destruct Hth as (_ & sp & n & d & _ & _ & Hsp & ->).
    rewrite spawned_app. cbn. change (omap spawn_request) with spawned.
    by rewrite spawned_ticks, app_nil_r, (spawned_spawns_of _ _ _ Hsp).
  - by destruct Hth as (_ & id & _ & ->).
  - by destruct Hth as (_ & id & _ & n & ->); cbn; induction n.
Qed.

Lemma spawned_events_by k tr :
  (∀ e, e ∈ tr → main_event e = true → owner e = Some k) →
  spawned (events_by k tr) = spawned tr.
Proof.
  induction tr as [|e tr IH]; intros Hall; [done|].
  unfold events_by. rewrite filter_cons.
  assert (IH' : spawned (events_by k tr) = spawned tr).
  { apply IH. intros e' He'. apply Hall. by right. }
  case_decide as Hown.
  - cbn. fold (events_by k tr). change (omap spawn_request) with spawned.
    by rewrite IH'.
  - fold (events_by k tr). rewrite IH'.
    destruct e; try done. contradict Hown. apply Hall; [left|done].
Qed.

(** With one launch, the coordinator is thread 0 and every spawn request,
    in the order of the trace, is one of its loop. *)
Lemma spawned_single N sched tr s c :
  run N sched (launch 1) = Some (tr, s) → contexts s !! 0%nat = Some c →
  spawned tr = VNum <$> issued N c.
Proof.
  intros Hrun Hc.
  rewrite <-(spawned_main N tr s 0 c) by (by eapply inv_run || done).
  symmetry. apply spawned_events_by. intros e He Hmain.
  destruct (owner e) as [k|] eqn:Hown; [|by destruct e].
  pose proof (event_index _ _ _ _ _ _ _ Hrun He Hown) as Hidx.
  rewrite Hmain in Hidx. symmetry in Hidx. apply bool_decide_eq_true in Hidx.
  f_equal. lia.
Qed.

(** ** Startup always completes *)

Lemma sum_list_with_insert {A} (f : A → nat) l k x y :
  l !! k = Some x →
  (sum_list_with f (<[k:=y]> l) + f x = sum_list_with f l + f y)%nat.
Proof.
  intros Hk. revert k Hk.
  induction l as [|a l IH]; intros [|k] Hk; simplify_eq/=; [lia|].
  specialize (IH _ Hk). lia.
Qed.

Lemma sum_list_with_pos {A} (f : A → nat) l :
  (0 < sum_list_with f l)%nat → ∃ k x, l !! k = Some x ∧ (0 < f x)%nat.
Proof.
  induction l as [|a l IH]; cbn; [lia|]. intros Hpos.
  destruct (decide (0 < f a)%nat) as [Ha|Ha].
  - by exists 0%nat, a.
  - destruct IH as (k & x & Hk & Hx); [lia|]. by exists (S k), x.
Qed.

Lemma sum_list_with_zero {A} (f : A → nat) l k x :
  sum_list_with f l = 0%nat → l !! k = Some x → f x = 0%nat.
Proof.
  intros Hsum Hk. apply list_elem_of_lookup_2 in Hk.
  pose proof (sum_list_with_in _ f _ Hk). lia.
Qed.

Lemma started_up_lookup s k c :
  started_up s = true → contexts s !! k = Some c →
  at_pc c = if isMainThread c then PIdle else PWhile.
Proof.
  unfold started_up. intros Hall%Is_true_true Hk.
  rewrite forallb_True, Forall_forall in Hall.
  specialize (Hall c (list_elem_of_lookup_2 _ _ _ Hk)).
  destruct (isMainThread c); by apply bool_decide_unpack in Hall.
Qed.

Lemma started_up_intro s :
  (∀ k c, contexts s !! k = Some c →
          at_pc c = if isMainThread c then PIdle else PWhile) →
  started_up s = true.
Proof.
  intros Hall. unfold started_up.
  apply Is_true_true, forallb_True, Forall_forall. intros c Hc.
  apply list_elem_of_lookup in Hc as [k Hk]. specialize (Hall _ _ Hk).
  destruct (isMainThread c); by apply bool_decide_pack.
Qed.

(** Some thread with a pending statement can run it, which leaves one
    pending statement fewer. *)
Lemma pending_step N tr s n :
  inv N tr s → remaining N s = S n →
  ∃ k e s', exec N (Run k) s = Some (e, s') ∧ remaining N s' = n.
Proof.
  intros Hinv Hrem. unfold remaining in *.
  destruct (sum_list_with_pos (pending N) (contexts s)) as (k & c & Hk & Hpos);
    [lia|].
  exists k. unfold exec. rewrite Hk. cbn. unfold script.
  assert (Hins : ∀ c',
            (sum_list_with (pending N) (<[k:=c']> (contexts s)) + pending N c
             = sum_list_with (pending N) (contexts s) + pending N c')%nat)
    by (intros; by apply sum_list_with_insert).
  unfold pending in Hpos.
  destruct (isMainThread c) eqn:Hmain, (at_pc c) as [i| | |] eqn:Hpc;
    try lia.
  - assert (Hc : pending N c = (2 * Z.to_nat (N - i) + 1)%nat)
      by (unfold pending; by rewrite Hmain, Hpc).
    destruct (Z.ltb_spec i N); cbn; eexists _, _; (split; [done|]); cbn.
    + rewrite sum_list_with_app.
      specialize (Hins (move c (PFor (i + 1)))).
      assert (pending N (move c (PFor (i + 1)))
              = (2 * Z.to_nat (N - (i + 1)) + 1)%nat) as Hc'
        by (unfold pending; cbn; by rewrite Hmain).
      change (sum_list_with (pending N) [boot false (VNum i)]) with 1%nat.
      lia.
    + match goal with |- sum_list_with _ (<[_:=?c']> _) = _ =>
        specialize (Hins c');
        assert (pending N c' = 0%nat) as Hc'
          by (unfold pending; cbn; by rewrite Hmain)
      end.
      lia.
  - assert (Hc : pending N c = 1%nat)
      by (unfold pending; by rewrite Hmain, Hpc).
    specialize (Hins (move c PWhile)).
    assert (pending N (move c PWhile) = 0%nat) as Hc'
      by (unfold pending; cbn; by rewrite Hmain).
    eexists _, _. split; [done|]. cbn. lia.
Qed.

Lemma startup_completes N tr s :
  inv N tr s →
  ∃ sched tr' s', run N sched s = Some (tr', s') ∧ started_up s' = true.
Proof.
  intros Hinv. remember (remaining N s) as n eqn:Hn. symmetry in Hn.
  revert tr s Hinv Hn. induction n as [|n IH]; intros tr s Hinv Hn.
  - exists [], [], s. split; [done|]. apply started_up_intro. intros k c Hk.
    pose proof (sum_list_with_zero _ _ _ _ Hn Hk) as Hp.
    pose proof (inv_threads _ _ _ Hinv _ _ Hk) as Hth.
    unfold thread_inv in Hth. unfold pending in Hp.
    destruct (isMainThread c), (at_pc c); try done; try lia;
      try (by destruct Hth as (_ & []));
      by destruct Hth as (_ & ? & _ & []).
  - destruct (pending_step _ _ _ _ Hinv Hn) as (k & e & s1 & Hex & Hrem).
    destruct (IH (tr ++ [e]) s1) as (sched & tr' & s' & Hrun & Hup);
      [eapply inv_step; [done|by eapply exec_step]|done|].
    exists (Run k :: sched), (e :: tr'), s'. split; [|done].
    cbn [run]. rewrite Hex. cbn. by rewrite Hrun.
Qed.

(** ** The console *)

Lemma started_line_eq id : started_line id = "Started:  " +:+ pretty id.
Proof. done. Qed.

#[local] Instance started_line_inj : Inj (=) (=) started_line.
Proof.
  intros a b Hab. rewrite !started_line_eq in Hab.
  cbn in Hab. simplify_eq. by apply (inj pretty).
Qed.

Lemma started_line_not_heartbeat id : started_line id ≠ heartbeat_line.
Proof. rewrite started_line_eq. by cbn. Qed.

Section Occurrences.
Context `{EqDecision A}.
Implicit Types (line other : A) (l : list A).

Lemma occurrences_perm line l1 l2 :
  l1 ≡ₚ l2 → occurrences line l1 = occurrences line l2.
Proof. intros Hp. unfold occurrences. by rewrite Hp. Qed.

Lemma occurrences_app line l1 l2 :
  occurrences line (l1 ++ l2) = (occurrences line l1 + occurrences line l2)%nat.
Proof. unfold occurrences. by rewrite filter_app, length_app. Qed.

Lemma occurrences_replicate_ne line n other :
  other ≠ line → occurrences line (replicate n other) = 0%nat.
Proof.
  intros Hne. unfold occurrences.
  induction n as [|n IH]; [done|]. by rewrite replicate_S, filter_cons_False.
Qed.

Lemma occurrences_absent line l : line ∉ l → occurrences line l = 0%nat.
Proof.
  intros Hnot. unfold occurrences.
  induction l as [|x l IH]; [done|].
  apply not_elem_of_cons in Hnot as [Hne Hnot].
  rewrite filter_cons_False by done. by apply IH.
Qed.

Lemma occurrences_NoDup line l :
  NoDup l → line ∈ l → occurrences line l = 1%nat.
Proof.
  induction 1 as [|x l Hx Hnd IH]; intros Hin; [by apply elem_of_nil in Hin|].
  unfold occurrences. apply elem_of_cons in Hin as [->|Hin].
  - rewrite filter_cons_True by done. cbn. f_equal. by apply occurrences_absent.
  - rewrite filter_cons_False by (intros ->; done). by apply IH.
Qed.

End Occurrences.

Lemma occurrences_started id ids :
  NoDup ids → id ∈ ids →
  occurrences (started_line id) (started_line <$> ids) = 1%nat.
Proof.
  intros Hnd Hin. apply occurrences_NoDup.
  - by apply (NoDup_fmap_2 _).
  - by apply list_elem_of_fmap_2.
Qed.

(** Once every worker has printed, the lines the workers have printed are
    those of the identifiers they were given. *)
Lemma printed_started_up (cs : list context) :
  (∀ c, c ∈ cs → isMainThread c = false → at_pc c = PWhile) →
  cs ≫= printed =
  (λ d, console_log [VStr "Started: "; d])
    <$> (workerData <$> filter (λ c, isMainThread c = false) cs).
Proof.
  induction cs as [|c cs IH]; intros Hall; [done|].
  rewrite bind_cons, IH by (intros; apply Hall; [by right|done]).
  unfold printed at 1. destruct (isMainThread c) eqn:Hmain.
  - by rewrite filter_cons_False by congruence.
  - rewrite filter_cons_True by done. by rewrite (Hall c) by (left || done).
Qed.

(** Every thread of the launches is there and is a main thread. *)
Lemma lookup_launched N m sched tr s k :
  run N sched (launch m) = Some (tr, s) → (k < m)%nat →
  ∃ c, contexts s !! k = Some c ∧ isMainThread c = true.
Proof.
  intros Hrun Hk.
  assert (Hid : (ident <$> contexts s) !! k = Some (true, VNull)).
  { rewrite (ident_run _ _ _ _ _ Hrun), lookup_app_l
      by (by rewrite length_replicate).
    by apply lookup_replicate. }
  rewrite list_lookup_fmap in Hid.
  destruct (contexts s !! k) as [c|]; [|done].
  exists c. split; [done|]. by injection Hid as [= -> _].
Qed.

Lemma issued_bounds N tr s k c :
  inv N tr s → contexts s !! k = Some c →
  ∃ i, 0 ≤ i ≤ Z.max 0 N ∧ issued N c = seqZ 0 i ∧
       (at_pc c = PIdle → isMainThread c = true → i = Z.max 0 N).
Proof.
  intros Hinv Hk.
  pose proof (inv_threads _ _ _ Hinv _ _ Hk) as Hth.
  unfold thread_inv in Hth. unfold issued.
  destruct (isMainThread c), (at_pc c) as [i| | |];
    try (by destruct Hth as (_ & []));
    try (by destruct Hth as (_ & ? & _ & []));
    try (by exists 0; split; [lia|]).
  - destruct Hth as (_ & Hi & _). by exists i.
  - exists (Z.max 0 N). split; [lia|]. split; [|done].
    destruct (decide (N ≤ 0)); [by rewrite !seqZ_nil by lia|]. f_equal. lia.
Qed.

(** ** Workers and identifiers *)

Lemma given_workers (cs : list context) :
  cs ≫= given = workerData <$> filter (λ c, isMainThread c = false) cs.
Proof.
  induction cs as [|c cs IH]; [done|].
  rewrite bind_cons, IH. unfold given at 1.
  destruct (isMainThread c) eqn:Hmain.
  - by rewrite filter_cons_False by congruence.
  - by rewrite filter_cons_True by done.
Qed.

Lemma issued_workers N (cs : list context) :
  (∀ c, c ∈ cs → isMainThread c = false) → cs ≫= issued N = [].
Proof.
  induction cs as [|c cs IH]; intros Hall; [done|].
  rewrite bind_cons, IH by (intros; apply Hall; by right).
  unfold issued. by rewrite (Hall c) by left.
Qed.

Lemma length_workers s : length (workers s) = length (worker_data s).
Proof. unfold worker_data. by rewrite length_fmap. Qed.

Lemma started_lines_of_data (ids : list Z) :
  (λ d, console_log [VStr "Started: "; d]) <$> (VNum <$> ids)
  = started_line <$> ids.
Proof. by rewrite <-list_fmap_compose. Qed.

#[local] Instance VNum_inj : Inj (=) (=) VNum.
Proof. by intros a b [= ->]. Qed.

(** What one launch has made of workers and console lines, at any state of
    a run and once startup is over. *)
Lemma single_launch N sched tr s :
  run N sched (launch 1) = Some (tr, s) →
  ∃ c i,
    contexts s !! 0%nat = Some c ∧ isMainThread c = true ∧
    0 ≤ i ≤ Z.max 0 N ∧ issued N c = seqZ 0 i ∧
    spawned tr = VNum <$> seqZ 0 i ∧
    worker_data s = VNum <$> seqZ 0 i ∧
    (at_pc c = PIdle → i = Z.max 0 N).
Proof.
  intros Hrun. pose proof (inv_run _ _ _ _ _ Hrun) as Hinv.
  destruct (lookup_launched _ _ _ _ _ 0 Hrun) as (c & Hc & Hmain); [lia|].
  destruct (issued_bounds _ _ _ _ _ Hinv Hc) as (i & Hi & Hiss & Hidle).
  exists c, i. repeat split; try done; try lia.
  - by rewrite (spawned_single _ _ _ _ _ Hrun Hc), Hiss.
  - by rewrite (worker_data_spawned _ _ _ _ _ Hrun),
      (spawned_single _ _ _ _ _ Hrun Hc), Hiss.
  - auto.
Qed.

Lemma stdout_started_up N m sched tr s :
  run N sched (launch m) = Some (tr, s) → started_up s = true →
  stdout s ≡ₚ
    ((λ d, console_log [VStr "Started: "; d]) <$> worker_data s)
    ++ replicate (ticks tr) heartbeat_line.
Proof.
  intros Hrun Hup. pose proof (inv_run _ _ _ _ _ Hrun) as Hinv.
  rewrite (inv_lines _ _ _ Hinv). f_equiv.
  rewrite printed_started_up; [done|].
  intros c [k Hk]%list_elem_of_lookup Hmain.
  by rewrite (started_up_lookup _ _ _ Hup Hk), Hmain.
Qed.

(** C1.  For every [workerCount = N >= 1]: the startup of one launch can
    always be completed; no state of a run has more than N workers, and the
    workers are given 0, 1, ... in creation order; once startup is over
    there are exactly N workers, given 0, ..., N-1, the console holds the
    lines ["Started:  k"] for k = 0, ..., N-1 and heartbeat lines and
    nothing else, and each ["Started:  k"] is there exactly once. *)
Theorem start_creates_each_worker_once (N : Z) :
  1 ≤ N →
  (∃ sched tr s, run N sched (launch 1) = Some (tr, s) ∧ started_up s = true) ∧
  ∀ sched tr s,
    run N sched (launch 1) = Some (tr, s) →
    (∃ i, 0 ≤ i ≤ N ∧ worker_data s = VNum <$> seqZ 0 i) ∧
    (started_up s = true →
       length (workers s) = Z.to_nat N ∧
       worker_data s = VNum <$> seqZ 0 N ∧
       stdout s ≡ₚ (started_line <$> seqZ 0 N)
                    ++ replicate (ticks tr) heartbeat_line ∧
       ∀ id, 0 ≤ id < N → occurrences (started_line id) (stdout s) = 1%nat).
Proof.
  intros HN. split.
  { destruct (startup_completes N [] (launch 1) (inv_launch N 1))
      as (sched & tr & s & Hrun & Hup). by exists sched, tr, s. }
  intros sched tr s Hrun.
  destruct (single_launch _ _ _ _ Hrun)
    as (c & i & Hc & Hmain & Hi & _ & _ & Hdata & Hidle).
  split; [exists i; split; [lia|done]|].
  intros Hup.
  assert (i = N) as ->.
  { pose proof (started_up_lookup _ _ _ Hup Hc) as Hpc.
    rewrite Hmain in Hpc. specialize (Hidle Hpc). lia. }
  assert (Hout : stdout s ≡ₚ (started_line <$> seqZ 0 N)
                              ++ replicate (ticks tr) heartbeat_line).
  { by rewrite (stdout_started_up _ _ _ _ _ Hrun Hup), Hdata,
      started_lines_of_data. }
  repeat split; try done.
  - by rewrite length_workers, Hdata, length_fmap, length_seqZ.
  - intros id Hid.
    rewrite (occurrences_perm _ _ _ Hout), occurrences_app.
    rewrite occurrences_started
      by (apply NoDup_seqZ || apply elem_of_seqZ; lia).
    rewrite occurrences_replicate_ne; [done|].
    intros Heq. by apply (started_line_not_heartbeat id).
Qed.



Lemma start_creates_each_worker_once_witness :
  ∃ tr s,
    run 8 eight_workers (launch 1) = Some (tr, s) ∧
    length (workers s) = 8%nat ∧
    occurrences "Started:  5"%string (stdout s) = 1%nat.
Proof.
  destruct (run 8 eight_workers (launch 1)) as [[tr s]|] eqn:Hrun;
    [|vm_compute in Hrun; discriminate].
  assert (Hup : started_up s = true).
  { assert (H : started_up ∘ snd <$> run 8 eight_workers (launch 1) = Some true)
      by (vm_compute; reflexivity).
    rewrite Hrun in H. by injection H. }
  destruct (proj2 (start_creates_each_worker_once 8 ltac:(lia))
              eight_workers tr s Hrun) as [_ Hall].
  destruct (Hall Hup) as (Hlen & _ & _ & Hocc).
  exists tr, s. split; [reflexivity|]. split; [exact Hlen|].
  apply (Hocc 5). lia.
Defined.

Lemma lookup_worker N m sched tr s k c :
  run N sched (launch m) = Some (tr, s) →
  contexts s !! (m + k)%nat = Some c →
  ∃ d, spawned tr !! k = Some d ∧ isMainThread c = false ∧ workerData c = d.
Proof.
  intros Hrun Hk.
  assert (Hid : (ident <$> contexts s) !! (m + k)%nat = Some (ident c))
    by by rewrite list_lookup_fmap, Hk.
  rewrite (ident_run _ _ _ _ _ Hrun) in Hid.
  rewrite lookup_app_r in Hid by (rewrite length_replicate; lia).
  rewrite length_replicate, list_lookup_fmap in Hid.
  replace (m + k - m)%nat with k in Hid by lia.
  destruct (spawned tr !! k) as [d|]; [|done].
  exists d. by injection Hid as [= <- <-].
Qed.

(** C5.  In every run of one launch, whatever the schedule: the k-th spawn
    request (counting from 0) carries the identifier k; it is issued by the
    coordinator; the thread it creates is thread k + 1, a worker that holds
    the identifier k as its [workerData], and k < N. *)
Theorem identifiers_follow_spawn_order N sched tr s :
  run N sched (launch 1) = Some (tr, s) →
  (∀ k d, spawned tr !! k = Some d → d = VNum (Z.of_nat k) ∧ Z.of_nat k < N) ∧
  (∀ k c, contexts s !! S k = Some c →
          isMainThread c = false ∧ workerData c = VNum (Z.of_nat k) ∧
          spawned tr !! k = Some (VNum (Z.of_nat k))) ∧
  (∀ p child d, EvSpawn p child d ∈ tr →
          p = 0%nat ∧ ∃ k, child = S k ∧ d = VNum (Z.of_nat k)).
Proof.
  intros Hrun.
  destruct (single_launch _ _ _ _ Hrun)
    as (c0 & i & Hc0 & Hmain0 & Hi & _ & Hsp & _ & _).
  assert (Hnth : ∀ k d, spawned tr !! k = Some d →
                        d = VNum (Z.of_nat k) ∧ Z.of_nat k < N).
  { intros k d. rewrite Hsp, list_lookup_fmap.
    destruct (seqZ 0 i !! k) as [x|] eqn:Hx; [|done].
    apply lookup_seqZ in Hx as [-> Hlt]. intros [= <-].
    split; [f_equal|]; lia. }
  assert (Hworker : ∀ k c, contexts s !! S k = Some c →
            isMainThread c = false ∧ workerData c = VNum (Z.of_nat k) ∧
            spawned tr !! k = Some (VNum (Z.of_nat k))).
  { intros k c Hk.
    destruct (lookup_worker _ 1 _ _ _ k _ Hrun Hk) as (d & Hd & Hm & Hdata).
    destruct (Hnth _ _ Hd) as [-> _]. by rewrite Hdata. }
  split; [done|]. split; [done|].
  intros p child d He.
  pose proof (event_index _ _ _ _ _ _ p Hrun He eq_refl) as Hp.
  symmetry in Hp. apply bool_decide_eq_true in Hp.
  split; [lia|].
  destruct (inv_children _ _ _ (inv_run _ _ _ _ _ Hrun) _ _ _ He)
    as (c & Hc & Hm & Hdata).
  destruct child as [|k].
  - rewrite Hc0 in Hc. injection Hc as [= <-]. congruence.
  - exists k. split; [done|].
    destruct (Hworker _ _ Hc) as (_ & Hd & _). congruence.
Qed.

Lemma identifiers_follow_spawn_order_witness :
  ∃ tr s,
    run 8 eight_workers (launch 1) = Some (tr, s) ∧
    spawned tr !! 5%nat = Some (VNum 5).
Proof.
  destruct (run 8 eight_workers (launch 1)) as [[tr s]|] eqn:Hrun;
    [|vm_compute in Hrun; discriminate].
  destruct (identifiers_follow_spawn_order 8 eight_workers tr s Hrun)
    as (_ & Hworker & _).
  assert (Hc : is_Some (contexts s !! 6%nat)).
  { assert (H : (λ x, bool_decide (is_Some (contexts x.2 !! 6%nat)))
                  <$> run 8 eight_workers (launch 1) = Some true)
      by (vm_compute; reflexivity).
    rewrite Hrun in H. injection H as [= H].
    by apply bool_decide_eq_true in H. }
  destruct Hc as [c Hc].
  exists tr, s. split; [reflexivity|].
  exact (proj2 (proj2 (Hworker 5%nat c Hc))).
Defined.

(** The order in which workers print is not fixed by the order in which
    they were spawned. *)
Example print_order_is_free :
  stdout <$> (snd <$> run 2 [Run 0; Run 0; Run 0; Run 2; Run 1]%nat (launch 1))
  = Some ["Started:  1"; "Started:  0"]%string.
Proof. vm_compute. reflexivity. Qed.

(** C6.  Starting twice is two launches of the main-thread branch, each
    with a loop counter of its own.  Startup can always be completed, and
    once it is over there are 2 * N workers, the identifiers given are
    0, ..., N-1 twice over, each of them to exactly two workers, and each
    launch has issued 0, ..., N-1 in order. *)
Theorem start_twice_doubles_workers (N : Z) :
  (∃ sched tr s, run N sched (launch 2) = Some (tr, s) ∧ started_up s = true) ∧
  ∀ sched tr s,
    run N sched (launch 2) = Some (tr, s) → started_up s = true →
    length (workers s) = (2 * Z.to_nat N)%nat ∧
    worker_data s ≡ₚ (VNum <$> seqZ 0 N) ++ (VNum <$> seqZ 0 N) ∧
    (∀ id, 0 ≤ id < N → occurrences (VNum id) (worker_data s) = 2%nat) ∧
    spawned (events_by 0 tr) = VNum <$> seqZ 0 N ∧
    spawned (events_by 1 tr) = VNum <$> seqZ 0 N.
Proof.
  split.
  { destruct (startup_completes N [] (launch 2) (inv_launch N 2))
      as (sched & tr & s & Hrun & Hup). by exists sched, tr, s. }
  intros sched tr s Hrun Hup.
  pose proof (inv_run _ _ _ _ _ Hrun) as Hinv.
  destruct (lookup_launched _ _ _ _ _ 0 Hrun) as (c0 & Hc0 & Hm0); [lia|].
  destruct (lookup_launched _ _ _ _ _ 1 Hrun) as (c1 & Hc1 & Hm1); [lia|].
  assert (Hi0 : issued N c0 = seqZ 0 N).
  { unfold issued. by rewrite Hm0, (started_up_lookup _ _ _ Hup Hc0), Hm0. }
  assert (Hi1 : issued N c1 = seqZ 0 N).
  { unfold issued. by rewrite Hm1, (started_up_lookup _ _ _ Hup Hc1), Hm1. }
  assert (Hdata : worker_data s ≡ₚ (VNum <$> seqZ 0 N) ++ (VNum <$> seqZ 0 N)).
  { unfold worker_data, workers. rewrite <-given_workers, (inv_ids _ _ _ Hinv).
    destruct (contexts s) as [|x0 [|x1 rest]] eqn:Hcs; simplify_eq/=.
    rewrite Hi0, Hi1, issued_workers, app_nil_r, fmap_app; [done|].
    intros c [k Hk]%list_elem_of_lookup.
    assert (Hk' : contexts s !! S (S k) = Some c) by by rewrite Hcs.
    rewrite (lookup_main _ _ _ _ _ _ _ Hrun Hk').
    by rewrite bool_decide_false by lia. }
  split; [|split; [done|split; [|split]]].
  - rewrite length_workers, Hdata, length_app, !length_fmap, length_seqZ. lia.
  - intros id Hid.
    rewrite (occurrences_perm _ _ _ Hdata), occurrences_app.
    assert (occurrences (VNum id) (VNum <$> seqZ 0 N) = 1%nat) as ->; [|done].
    apply occurrences_NoDup.
    + apply (NoDup_fmap_2 _), NoDup_seqZ.
    + apply list_elem_of_fmap_2, elem_of_seqZ. lia.
  - by rewrite (spawned_main _ _ _ _ _ Hinv Hc0), Hi0.
  - by rewrite (spawned_main _ _ _ _ _ Hinv Hc1), Hi1.
Qed.


Lemma start_twice_doubles_workers_witness :
  ∃ tr s,
    run 2 two_launches (launch 2) = Some (tr, s) ∧
    length (workers s) = 4%nat ∧
    occurrences (VNum 1) (worker_data s) = 2%nat.
Proof.
  destruct (run 2 two_launches (launch 2)) as [[tr s]|] eqn:Hrun;
    [|vm_compute in Hrun; discriminate].
  assert (Hup : started_up s = true).
  { assert (H : started_up ∘ snd <$> run 2 two_launches (launch 2) = Some true)
      by (vm_compute; reflexivity).
    rewrite Hrun in H. by injection H. }
  destruct (proj2 (start_twice_doubles_workers 2) two_launches tr s Hrun Hup)
    as (Hlen & _ & Hocc & _).
  exists tr, s. split; [reflexivity|]. split; [exact Hlen|].
  apply (Hocc 1). lia.
Defined.

(** ** What a worker does *)

Lemma move_same c : move c (at_pc c) = c.
Proof. by destruct c. Qed.

Lemma system_eta s : System (contexts s) (stdout s) (now s) = s.
Proof. by destruct s. Qed.

Lemma worker_state N m sched tr s k c :
  run N sched (launch m) = Some (tr, s) →
  contexts s !! k = Some c → isMainThread c = false →
  timers c = [] ∧
  ∃ id, workerData c = VNum id ∧
    (at_pc c = PLog ∧ events_by k tr = [] ∨
     at_pc c = PWhile ∧
       ∃ n, events_by k tr
            = EvLog k (started_line id) :: replicate n (EvRandom k)).
Proof.
  intros Hrun Hk Hmain.
  pose proof (inv_threads _ _ _ (inv_run _ _ _ _ _ Hrun) _ _ Hk) as Hth.
  unfold thread_inv in Hth. rewrite Hmain in Hth.
  destruct Hth as (Htm & id & Hdata & Hpc). split; [done|].
  exists id. split; [done|]. destruct (at_pc c); try done; eauto.
Qed.

Lemma lines_of_draws n k : replicate n (EvRandom k) ≫= lines_of = [].
Proof. induction n; [done|]. by cbn. Qed.

(** C3.  A worker thread of any run holds a number [id] as its
    [workerData].  Either it has done nothing yet, and then its next
    statement prints the one line ["Started: "], a space, [id]; or it has
    printed exactly that line and after it only drawn random numbers, and
    then its next statement is again a draw, which is always enabled and
    leaves the whole state as it was.  So its output is that one line and
    nothing after it. *)
Theorem worker_prints_once_then_spins N m sched tr s k c :
  run N sched (launch m) = Some (tr, s) →
  contexts s !! k = Some c → isMainThread c = false →
  ∃ id,
    workerData c = VNum id ∧
    started_line id = "Started: " +:+ " " +:+ pretty id ∧
    (at_pc c = PLog ∧ events_by k tr = [] ∧
       exec N (Run k) s =
         Some (EvLog k (started_line id),
               System (<[k := move c PWhile]> (contexts s))
                      (stdout s ++ [started_line id]) (now s))
     ∨
     at_pc c = PWhile ∧
       (∃ n, events_by k tr
             = EvLog k (started_line id) :: replicate n (EvRandom k)) ∧
       events_by k tr ≫= lines_of = [started_line id] ∧
       exec N (Run k) s = Some (EvRandom k, s)).
Proof.
  intros Hrun Hk Hmain.
  destruct (worker_state _ _ _ _ _ _ _ Hrun Hk Hmain)
    as (_ & id & Hdata & [[Hpc Hevs]|[Hpc [n Hevs]]]);
    exists id; (split; [done|]); (split; [done|]).
  - left. split; [done|]. split; [done|].
    unfold exec. rewrite Hk. cbn. unfold script. by rewrite Hpc, Hdata.
  - right. split; [done|]. split; [by exists n|]. split.
    + rewrite Hevs, bind_cons, lines_of_draws. done.
    + unfold exec. rewrite Hk. cbn. unfold script. rewrite Hpc. cbn.
      rewrite <-Hpc, move_same, list_insert_id by done.
      by rewrite system_eta.
Qed.

Lemma worker_prints_once_then_spins_witness :
  ∃ tr s,
    run 8 eight_workers (launch 1) = Some (tr, s) ∧
    exec 8 (Run 3) s = Some (EvRandom 3, s).
Proof.
  destruct (run 8 eight_workers (launch 1)) as [[tr s]|] eqn:Hrun;
    [|vm_compute in Hrun; discriminate].
  assert (Hc : contexts s !! 3%nat = Some (Context false (VNum 2) PWhile [])).
  { assert (H : (λ x, contexts x.2 !! 3%nat) <$> run 8 eight_workers (launch 1)
                = Some (Some (Context false (VNum 2) PWhile [])))
      by (vm_compute; reflexivity).
    rewrite Hrun in H. by injection H. }
  destruct (worker_prints_once_then_spins 8 1 eight_workers tr s 3 _
              Hrun Hc eq_refl) as (id & _ & _ & [(Hpc & _)|(_ & _ & _ & Hex)]);
    [discriminate Hpc|].
  exists tr, s. split; [reflexivity|exact Hex].
Defined.

(** ** Nothing ever ends *)


Lemma keeps_refl c : keeps c c.
Proof. by repeat split. Qed.

Lemma keeps_trans c1 c2 c3 : keeps c1 c2 → keeps c2 c3 → keeps c1 c3.
Proof.
  intros (? & ? & ? & ? & ?) (? & ? & ? & ? & ?).
  repeat split; try congruence; auto.
Qed.

Lemma lookup_insert_keeps (cs extra : list context) k c c' j x :
  cs !! k = Some c → keeps c c' → cs !! j = Some x →
  ∃ x', (<[k:=c']> cs ++ extra) !! j = Some x' ∧ keeps x x'.
Proof.
  intros Hk Hkeep Hj.
  assert (j < length cs)%nat by by eapply lookup_lt_Some.
  rewrite lookup_app_l by (by rewrite length_insert).
  destruct (decide (j = k)) as [->|Hne].
  - rewrite list_lookup_insert_eq by done. exists c'. by simplify_eq.
  - rewrite list_lookup_insert_ne by done. exists x. split; [done|].
    apply keeps_refl.
Qed.

Lemma step_keeps N s e s' j x :
  step N s e s' → contexts s !! j = Some x →
  ∃ x', contexts s' !! j = Some x' ∧ keeps x x'.
Proof.
  intros Hstep Hj.
  destruct Hstep as [s k c i Hc Hpc Hi|s k c i Hc Hpc Hi|s k c Hc Hpc
                    |s k c Hc Hpc|s k c j' t Hc Ht Hpc Hd|s ms Hms]; cbn.
  - eapply lookup_insert_keeps; [done| |done].
    repeat split; cbn; congruence.
  - rewrite <-(app_nil_r (<[_:=_]> _)).
    eapply lookup_insert_keeps; [done| |done].
    repeat split; cbn; try congruence.
    intros _ Hnil. apply (f_equal length) in Hnil.
    rewrite length_app in Hnil. cbn in Hnil. lia.
  - rewrite <-(app_nil_r (<[_:=_]> _)).
    eapply lookup_insert_keeps; [done| |done].
    repeat split; cbn; congruence.
  - rewrite <-(app_nil_r (<[_:=_]> _)).
    eapply lookup_insert_keeps; [done| |done].
    repeat split; cbn; congruence.
  - rewrite <-(app_nil_r (<[_:=_]> _)).
    eapply lookup_insert_keeps; [done| |done].
    repeat split; cbn; try congruence.
    intros _ Hnil. apply (f_equal length) in Hnil.
    rewrite length_insert in Hnil. apply lookup_lt_Some in Ht. cbn in Hnil. lia.
  - exists x. split; [done|]. apply keeps_refl.
Qed.

Lemma run_keeps N sched s tr s' j x :
  run N sched s = Some (tr, s') → contexts s !! j = Some x →
  ∃ x', contexts s' !! j = Some x' ∧ keeps x x'.
Proof.
  revert s tr x. induction sched as [|ch sched IH]; intros s tr x; cbn.
  - intros [= <- <-] Hj. exists x. split; [done|]. apply keeps_refl.
  - destruct (exec N ch s) as [[e s1]|] eqn:Hex; cbn; [|done].
    destruct (run N sched s1) as [[tr1 s2]|] eqn:Hrun; cbn; [|done].
    intros [= <- <-] Hj.
    destruct (step_keeps _ _ _ _ _ _ (exec_step _ _ _ _ _ Hex) Hj)
      as (x1 & Hx1 & Hk1).
    destruct (IH _ _ _ Hrun Hx1) as (x2 & Hx2 & Hk2).
    exists x2. split; [done|]. by eapply keeps_trans.
Qed.

Lemma never_terminated N tr s k c :
  inv N tr s → contexts s !! k = Some c → terminated c = false.
Proof.
  intros Hinv Hk.
  pose proof (inv_threads _ _ _ Hinv _ _ Hk) as Hth.
  unfold thread_inv in Hth. unfold terminated.
  destruct (isMainThread c), (at_pc c); try done;
    try (by destruct Hth as (_ & ? & _ & [])).
  destruct Hth as (_ & sp & n & d & -> & _). done.
Qed.

Lemma run_waits N n s :
  run N (replicate n (Wait 1)) s
  = Some (replicate n (EvElapse 1),
          System (contexts s) (stdout s) (now s + Z.of_nat n)).
Proof.
  revert s. induction n as [|n IH]; intros s.
  - cbn. by rewrite Z.add_0_r, system_eta.
  - cbn [replicate run exec]. cbn. rewrite IH. cbn.
    do 3 f_equal. lia.
Qed.

(** C2.  For every number of steps [n] there are runs of [n] steps, and
    after any run of [n] steps: the process is alive; no thread has
    terminated; every worker can run its next statement; the coordinator,
    once idle, has its timer, which fires again after a wait; and in every
    continuation a worker that is in its loop stays in its loop and a thread
    that has a timer keeps it. *)
Theorem process_never_terminates N n :
  (∃ sched tr s, length sched = n ∧ run N sched (launch 1) = Some (tr, s)) ∧
  ∀ sched tr s,
    length sched = n → run N sched (launch 1) = Some (tr, s) →
    alive s = true ∧
    (∀ k c, contexts s !! k = Some c → terminated c = false) ∧
    (∀ k c, contexts s !! k = Some c → isMainThread c = false →
            is_Some (exec N (Run k) s)) ∧
    (∀ c, contexts s !! 0%nat = Some c → at_pc c = PIdle →
          timers c ≠ [] ∧
          ∃ ms e1 s1, exec N (Wait ms) s = Some (e1, s1) ∧
                      is_Some (exec N (Fire 0 0) s1)) ∧
    (∀ sched' tr' s', run N sched' s = Some (tr', s') →
       ∀ k c, contexts s !! k = Some c →
         ∃ c', contexts s' !! k = Some c' ∧
               (at_pc c = PWhile → at_pc c' = PWhile) ∧
               (timers c ≠ [] → timers c' ≠ [])).
Proof.
  split.
  { exists (replicate n (Wait 1)). eexists _, _.
    split; [by rewrite length_replicate|]. apply run_waits. }
  intros sched tr s _ Hrun.
  pose proof (inv_run _ _ _ _ _ Hrun) as Hinv.
  assert (Hlive : ∀ k c, contexts s !! k = Some c → terminated c = false)
    by (intros; by eapply never_terminated).
  split; [|split; [done|split; [|split]]].
  - destruct (lookup_launched _ _ _ _ _ 0 Hrun) as (c0 & Hc0 & _); [lia|].
    unfold alive. destruct (contexts s) as [|x rest]; simplify_eq/=.
    by rewrite (Hlive 0%nat c0).
  - intros k c Hk Hmain.
    destruct (worker_state _ _ _ _ _ _ _ Hrun Hk Hmain)
      as (_ & id & _ & [[Hpc _]|[Hpc _]]);
      unfold exec; rewrite Hk; cbn; unfold script; by rewrite Hpc.
  - intros c Hc Hpc.
    destruct (lookup_launched _ _ _ _ _ 0 Hrun) as (c0 & Hc0 & Hmain); [lia|].
    simplify_eq.
    pose proof (inv_threads _ _ _ Hinv _ _ Hc) as Hth.
    unfold thread_inv in Hth. rewrite Hmain, Hpc in Hth.
    destruct Hth as (_ & sp & m & d & Htm & _).
    split; [by rewrite Htm|].
    exists (Z.max 1 (d - now s)). eexists _, _. split.
    + unfold exec. by destruct (Z.ltb_spec 0 (Z.max 1 (d - now s))); [|lia].
    + unfold exec. cbn. rewrite Hc. cbn. rewrite Htm. cbn. rewrite Hpc. cbn.
      by destruct (Z.leb_spec d (now s + Z.max 1 (d - now s))); [|lia].
  - intros sched' tr' s' Hrun' k c Hk.
    destruct (run_keeps _ _ _ _ _ _ _ Hrun' Hk)
      as (c' & Hk' & _ & _ & ? & _ & ?).
    by exists c'.
Qed.

Lemma process_never_terminates_witness :
  ∃ tr s,
    run 8 eight_workers (launch 1) = Some (tr, s) ∧ alive s = true.
Proof.
  destruct (run 8 eight_workers (launch 1)) as [[tr s]|] eqn:Hrun;
    [|vm_compute in Hrun; discriminate].
  exists tr, s. split; [reflexivity|].
  exact (proj1 (proj2 (process_never_terminates 8 17) eight_workers tr s
                  eq_refl Hrun)).
Defined.

(** ** The heartbeat *)



Lemma ticks_events_by k tr :
  (∀ e, e ∈ tr → main_event e = true → owner e = Some k) →
  ticks (events_by k tr) = ticks tr.
Proof.
  induction tr as [|e tr IH]; intros Hall; [done|].
  assert (IH' : ticks (events_by k tr) = ticks tr).
  { apply IH. intros e' He'. apply Hall. by right. }
  unfold events_by. rewrite filter_cons. fold (events_by k tr).
  unfold ticks in *. case_decide as Hown.
  - rewrite !filter_cons.
    destruct (decide (is_tick e = true)); cbn; by rewrite IH'.
  - rewrite filter_cons_False; [done|].
    intros Htick. apply Hown, Hall; [left|by destruct e].
Qed.

Lemma ticks_coordinator sp n k ms :
  (∀ e, e ∈ sp → is_tick e = false) →
  ticks (sp ++ EvSetInterval k ms :: replicate n (EvTick k [heartbeat_line]))
  = n.
Proof.
  intros Hsp. unfold ticks. rewrite filter_app, length_app.
  assert (filter (λ e, is_tick e = true) sp = []) as ->.
  { induction sp as [|e sp IH]; [done|].
    rewrite filter_cons_False by (rewrite Hsp by left; done).
    apply IH. intros. apply Hsp. by right. }
  rewrite filter_cons_False by done. cbn.
  induction n as [|n IH]; [done|].
  by rewrite replicate_S, filter_cons_True, length_cons, IH.
Qed.

(** The coordinator of one launch: its events so far and its timer. *)
Lemma coordinator_state N sched tr s c :
  run N sched (launch 1) = Some (tr, s) → contexts s !! 0%nat = Some c →
  (∃ i, at_pc c = PFor i ∧ timers c = [] ∧
        spawns_of 0 (seqZ 0 i) (events_by 0 tr))
  ∨
  (∃ sp d, at_pc c = PIdle ∧ timers c = [heartbeat d] ∧
           1000 * (Z.of_nat (ticks tr) + 1) ≤ d ∧
           spawns_of 0 (seqZ 0 N) sp ∧
           events_by 0 tr
           = sp ++ EvSetInterval 0 1000
                   :: replicate (ticks tr) (EvTick 0 [heartbeat_line])).
Proof.
  intros Hrun Hc. pose proof (inv_run _ _ _ _ _ Hrun) as Hinv.
  assert (Hmain : isMainThread c = true).
  { by rewrite (lookup_main _ _ _ _ _ _ _ Hrun Hc). }
  pose proof (inv_threads _ _ _ Hinv _ _ Hc) as Hth.
  unfold thread_inv in Hth. rewrite Hmain in Hth.
  destruct (at_pc c) as [i| | |]; try (by destruct Hth as (_ & [])).
  - left. exists i. by destruct Hth as (_ & _ & ? & ?).
  - right. destruct Hth as (_ & sp & n & d & Htm & Hd & Hsp & Hevs).
    assert (ticks tr = n) as ->; [|by exists sp, d].
    rewrite <-(ticks_events_by 0), Hevs.
    + apply ticks_coordinator. intros e He.
      by destruct (spawns_of_elem _ _ _ _ Hsp He) as (? & ? & -> & _).
    + intros e He Hme.
      destruct (owner e) as [k|] eqn:Hown; [|by destruct e].
      pose proof (event_index _ _ _ _ _ _ _ Hrun He Hown) as Hidx.
      rewrite Hme in Hidx. symmetry in Hidx. apply bool_decide_eq_true in Hidx.
      f_equal. lia.
Qed.

Lemma ticks_before_now N sched tr s :
  run N sched (launch 1) = Some (tr, s) → 1000 * Z.of_nat (ticks tr) ≤ now s.
Proof.
  intros Hrun.
  enough (∃ sched', run N sched' (launch 1) = Some (tr, s)
                    ∧ 1000 * Z.of_nat (ticks tr) ≤ now s)
    as (_ & _ & ?); [done|].
  revert sched tr s Hrun.
  apply (run_ind N (launch 1)
    (λ tr s, ∃ sched', run N sched' (launch 1) = Some (tr, s)
                       ∧ 1000 * Z.of_nat (ticks tr) ≤ now s)).
  - by exists [].
  - intros tr s e s' (sched & Hrun & Hle) Hstep.
    destruct (step_exec _ _ _ _ Hstep) as [ch Hex].
    exists (sched ++ [ch]). split.
    { rewrite run_app, Hrun. cbn. by rewrite Hex. }
    rewrite ticks_snoc.
    destruct Hstep as [s k c i Hc Hpc Hi|s k c i Hc Hpc Hi|s k c Hc Hpc
                      |s k c Hc Hpc|s k c j t Hc Ht Hpc Hd|s ms Hms];
      cbn; try lia.
    assert (k = 0%nat) as ->.
    { pose proof (lookup_main _ _ _ _ _ _ _ Hrun Hc) as Hm.
      pose proof (inv_threads _ _ _ (inv_run _ _ _ _ _ Hrun) _ _ Hc) as Hth.
      unfold thread_inv in Hth. rewrite Hpc in Hth.
      destruct (isMainThread c); [|by destruct Hth as (_ & ? & _ & [])].
      symmetry in Hm. apply bool_decide_eq_true in Hm. lia. }
    destruct (coordinator_state _ _ _ _ _ Hrun Hc)
      as [(i & Hpc' & _)|(sp & d & _ & Htm & Hdue & _)]; [congruence|].
    rewrite Htm in Ht. destruct j; simplify_eq/=. lia.
Qed.




(** ** Only the coordinator spawns *)

(** C8.  In every run of one launch: the console holds the lines of the
    events of the run, in order; an event of a thread other than thread 0
    is that thread's ["Started:  id"] line or a random draw; spawn
    requests, timer installations and ticks are thread 0's; thread 0 is the
    only main thread, and the other threads have no timer; there are never
    more than N + 1 threads, and exactly N + 1 once the coordinator has left
    its loop; and whatever prints ["Still alive!"] is thread 0's. *)
Theorem only_coordinator_spawns N sched tr s :
  run N sched (launch 1) = Some (tr, s) →
  stdout s = tr ≫= lines_of ∧
  (∀ e k, e ∈ tr → owner e = Some k → k ≠ 0%nat →
     e = EvRandom k ∨ ∃ id, e = EvLog k (started_line id)) ∧
  (∀ e, e ∈ tr → main_event e = true → owner e = Some 0%nat) ∧
  (∀ k c, contexts s !! k = Some c →
     (isMainThread c = true ↔ k = 0%nat) ∧ (k ≠ 0%nat → timers c = [])) ∧
  (length (contexts s) ≤ Z.to_nat N + 1)%nat ∧
  (∀ c, contexts s !! 0%nat = Some c → at_pc c = PIdle →
     length (contexts s) = (Z.to_nat N + 1)%nat) ∧
  (∀ e, e ∈ tr → heartbeat_line ∈ lines_of e → owner e = Some 0%nat).
Proof.
  intros Hrun. pose proof (inv_run _ _ _ _ _ Hrun) as Hinv.
  assert (Hmine : ∀ e, e ∈ tr → main_event e = true → owner e = Some 0%nat).
  { intros e He Hme.
    destruct (owner e) as [k|] eqn:Hown; [|by destruct e].
    pose proof (event_index _ _ _ _ _ _ _ Hrun He Hown) as Hidx.
    rewrite Hme in Hidx. symmetry in Hidx. apply bool_decide_eq_true in Hidx.
    f_equal. lia. }
  assert (Htheirs : ∀ e k, e ∈ tr → owner e = Some k → k ≠ 0%nat →
            e = EvRandom k ∨ ∃ id, e = EvLog k (started_line id)).
  { intros e k He Hown Hk.
    destruct (event_thread _ _ _ _ _ Hinv He Hown) as (c & Hc & Hme).
    assert (Hmain : isMainThread c = false).
    { rewrite (lookup_main _ _ _ _ _ _ _ Hrun Hc).
      by rewrite bool_decide_false by lia. }
    assert (Hin : e ∈ events_by k tr) by by apply list_elem_of_filter.
    destruct (worker_state _ _ _ _ _ _ _ Hrun Hc Hmain)
      as (_ & id & _ & [[_ Hevs]|[_ [n Hevs]]]); rewrite Hevs in Hin.
    - by apply elem_of_nil in Hin.
    - apply elem_of_cons in Hin as [->|Hin]; [right; by exists id|].
      left. by apply elem_of_replicate_inv in Hin. }
  assert (Hlen : length (contexts s) = S (length (spawned tr))).
  { rewrite <-(length_fmap ident), (ident_run _ _ _ _ _ Hrun).
    by rewrite length_app, length_fmap. }
  destruct (single_launch _ _ _ _ Hrun)
    as (c0 & i & Hc0 & Hmain0 & Hi & _ & Hsp & _ & Hidle).
  rewrite Hsp, length_fmap, length_seqZ in Hlen.
  split; [by apply (inv_stdout _ _ _ Hinv)|].
  split; [done|]. split; [done|]. split; [|split; [|split]].
  - intros k c Hc. rewrite (lookup_main _ _ _ _ _ _ _ Hrun Hc).
    split.
    + rewrite bool_decide_eq_true. lia.
    + intros Hk.
      apply (worker_state _ _ _ _ _ _ _ Hrun Hc).
      rewrite (lookup_main _ _ _ _ _ _ _ Hrun Hc).
      by rewrite bool_decide_false by lia.
  - lia.
  - intros c Hc Hpc. simplify_eq. specialize (Hidle Hpc). lia.
  - intros e He Hline.
    destruct e as [p child d|k ms|k line|k|k lines|ms]; cbn in Hline;
      try (by apply elem_of_nil in Hline); [|by apply Hmine].
    apply list_elem_of_singleton in Hline as <-.
    destruct (decide (k = 0%nat)) as [->|Hk]; [done|].
    destruct (Htheirs _ k He eq_refl Hk) as [[=]|[id Hid]].
    injection Hid as [= Hid]. by destruct (started_line_not_heartbeat id).
Qed.

Lemma only_coordinator_spawns_witness :
  ∃ tr s,
    run 8 eight_workers_and_two_ticks (launch 1) = Some (tr, s) ∧
    length (contexts s) = 9%nat.
Proof.
  destruct (run 8 eight_workers_and_two_ticks (launch 1)) as [[tr s]|] eqn:Hrun;
    [|vm_compute in Hrun; discriminate].
  assert (Hc : ∃ c, contexts s !! 0%nat = Some c ∧ at_pc c = PIdle).
  { assert (H : (λ x, (λ c, at_pc c) <$> contexts x.2 !! 0%nat)
                  <$> run 8 eight_workers_and_two_ticks (launch 1)
                = Some (Some PIdle)) by (vm_compute; reflexivity).
    rewrite Hrun in H. injection H as [= H].
    destruct (contexts s !! 0%nat) as [c|]; [|discriminate H].
    exists c. split; [reflexivity|]. by injection H. }
  destruct Hc as (c & Hc & Hpc).
  exists tr, s. split; [reflexivity|].
  exact (proj1 (proj2 (proj2 (proj2 (proj2 (proj2
    (only_coordinator_spawns 8 _ tr s Hrun)))))) c Hc Hpc).
Defined.

(** ** A count that is not positive *)


Lemma exec_install N :
  N ≤ 0 →
  exec N (Run 0) (launch 1)
  = Some (EvSetInterval 0 1000,
          System [Context true VNull PIdle [heartbeat 1000]] [] 0).
Proof.
  intros HN. cbn -[Z.ltb]. unfold script. cbn -[Z.ltb].
  by destruct (Z.ltb_spec 0 N); [lia|].
Qed.

Lemma run_heartbeats N n :
  N ≤ 0 →
  ∃ tr,
    run N (heartbeats n) (launch 1)
    = Some (tr, System [Context true VNull PIdle
                          [heartbeat (1000 * (Z.of_nat n + 1))]]
                       (replicate n heartbeat_line) (1000 * Z.of_nat n)).
Proof.
  intros HN. unfold heartbeats. induction n as [|n [tr IH]].
  - cbn [replicate mjoin list_join run]. rewrite exec_install by done.
    by eexists.
  - rewrite replicate_S_end, join_app, app_comm_cons, run_app, IH.
    cbn -[Z.leb Z.mul Z.add Z.of_nat].
    destruct (Z.leb_spec (1000 * (Z.of_nat n + 1)) (1000 * Z.of_nat n + 1000));
      [|lia].
    replace (1000 * (Z.of_nat (S n) + 1)) with (1000 * Z.of_nat n + 1000 + 1000)
      by lia.
    replace (1000 * Z.of_nat (S n)) with (1000 * Z.of_nat n + 1000) by lia.
    rewrite replicate_cons_app. by eexists.
Qed.

(** After a tick the timer is due one period later: the next tick is
    refused at once and is possible after a wait exactly when the wait is
    1000 ms or more. *)
Lemma tick_then_period N sched tr s e s1 :
  run N sched (launch 1) = Some (tr, s) →
  exec N (Fire 0 0) s = Some (e, s1) →
  e = EvTick 0 [heartbeat_line] ∧
  stdout s1 = stdout s ++ [heartbeat_line] ∧
  exec N (Fire 0 0) s1 = None ∧
  ∀ ms, is_Some (exec N (Wait ms) s1 ≫= λ '(_, s2), exec N (Fire 0 0) s2)
        ↔ 1000 ≤ ms.
Proof.
  intros Hrun Hex. unfold exec in Hex.
  destruct (contexts s !! 0%nat) as [c|] eqn:Hc; [|done]. cbn in Hex.
  assert (Hlt : (0 < length (contexts s))%nat) by by eapply lookup_lt_Some.
  destruct (coordinator_state _ _ _ _ _ Hrun Hc)
    as [(i & Hpc & Htm & _)|(sp & d & Hpc & Htm & _)];
    rewrite Htm in Hex; [done|].
  cbn in Hex. rewrite Hpc in Hex. cbn in Hex.
  destruct (Z.leb_spec d (now s)); [|done].
  injection Hex as [= <- Hs1]. split; [done|].
  assert (s1 = System (<[0%nat := set_timers c [heartbeat (now s + 1000)]]>
                         (contexts s))
                      (stdout s ++ [heartbeat_line]) (now s)) as ->
    by by rewrite <-Hs1.
  clear Hs1. split; [done|].
  assert (Hfire : ∀ t, exec N (Fire 0 0)
            (System (<[0%nat := set_timers c [heartbeat (now s + 1000)]]>
                       (contexts s)) (stdout s ++ [heartbeat_line]) t)
            = if now s + 1000 <=? t
              then Some (EvTick 0 [heartbeat_line],
                         System
                           (<[0%nat := set_timers c [heartbeat (t + 1000)]]>
                              (contexts s))
                           ((stdout s ++ [heartbeat_line])
                            ++ [heartbeat_line]) t)
              else None).
  { intros t. unfold exec. cbn [contexts stdout now].
    rewrite list_lookup_insert_eq by done. cbn. rewrite Hpc. cbn.
    destruct (now s + 1000 <=? t); [|done].
    by rewrite list_insert_insert_eq. }
  split.
  - rewrite (Hfire (now s)).
    by destruct (Z.leb_spec (now s + 1000) (now s)); [lia|].
  - intros ms.
    assert (Hwait : ∀ x, exec N (Wait ms) x
              = if 0 <? ms
                then Some (EvElapse ms,
                           System (contexts x) (stdout x) (now x + ms))
                else None) by done.
    rewrite Hwait. cbn [contexts stdout now].
    destruct (Z.ltb_spec 0 ms); cbn [mbind option_bind].
    + rewrite Hfire.
      destruct (Z.leb_spec (now s + 1000) (now s + ms));
        split; try lia; try done; by intros [? [=]].
    + split; [by intros [? [=]]|lia].
Qed.

(** C9.  When [workerCount <= 0]: the first statement of the coordinator is
    already the [setInterval].  In every run there is no worker, no spawn
    request and no line printed by a script statement; the console holds
    heartbeat lines only and no ["Started:  id"] line; no more heartbeats
    have been printed than periods of 1000 ms have passed; and a tick prints
    one heartbeat, after which the next tick is refused at once and is
    possible after a wait exactly when the wait is 1000 ms or more.  And for
    every [n] there is a run in which [n] heartbeats have been printed, one
    per 1000 ms. *)
Theorem no_workers_when_count_not_positive N :
  N ≤ 0 →
  exec N (Run 0) (launch 1)
  = Some (EvSetInterval 0 1000,
          System [Context true VNull PIdle [heartbeat 1000]] [] 0) ∧
  (∀ sched tr s, run N sched (launch 1) = Some (tr, s) →
     workers s = [] ∧ spawned tr = [] ∧
     (∀ k line, EvLog k line ∉ tr) ∧
     stdout s = replicate (ticks tr) heartbeat_line ∧
     (∀ id, started_line id ∉ stdout s) ∧
     1000 * Z.of_nat (ticks tr) ≤ now s ∧
     (∀ e s1, exec N (Fire 0 0) s = Some (e, s1) →
        e = EvTick 0 [heartbeat_line] ∧
        stdout s1 = stdout s ++ [heartbeat_line] ∧
        exec N (Fire 0 0) s1 = None ∧
        ∀ ms, is_Some (exec N (Wait ms) s1
                       ≫= λ '(_, s2), exec N (Fire 0 0) s2)
              ↔ 1000 ≤ ms)) ∧
  (∀ n, ∃ tr s, run N (heartbeats n) (launch 1) = Some (tr, s) ∧
                workers s = [] ∧
                stdout s = replicate n heartbeat_line ∧
                now s = 1000 * Z.of_nat n).
Proof.
  intros HN. split; [|split].
  - by apply exec_install.
  - intros sched tr s Hrun. pose proof (inv_run _ _ _ _ _ Hrun) as Hinv.
    destruct (single_launch _ _ _ _ Hrun)
      as (c0 & i & Hc0 & Hmain0 & Hi & _ & Hsp & Hdata & _).
    assert (i = 0) as -> by lia. cbn in Hsp, Hdata.
    assert (Hnone : workers s = []).
    { unfold worker_data in Hdata. by destruct (workers s). }
    assert (Hout : stdout s = replicate (ticks tr) heartbeat_line).
    { symmetry. apply replicate_Permutation.
      rewrite (inv_lines _ _ _ Hinv), printed_started_up.
      - fold (workers s). by rewrite Hnone.
      - intros c Hc Hmain.
        assert (Hin : c ∈ workers s) by by apply list_elem_of_filter.
        rewrite Hnone in Hin. by apply elem_of_nil in Hin. }
    split; [done|]. split; [done|].
    split; [|split; [done|split; [|split]]].
    + intros k line He.
      destruct (event_thread _ _ _ _ k Hinv He eq_refl) as (c & Hc & Hmain).
      assert (Hin : c ∈ workers s).
      { apply list_elem_of_filter. split; [done|].
        by eapply list_elem_of_lookup_2. }
      rewrite Hnone in Hin. by apply elem_of_nil in Hin.
    + intros id. rewrite Hout. intros Hin%elem_of_replicate_inv.
      by apply (started_line_not_heartbeat id).
    + by eapply ticks_before_now.
    + intros e s1 Hex. by eapply tick_then_period.
  - intros n. destruct (run_heartbeats N n HN) as [tr Hrun].
    eexists _, _. split; [done|]. done.
Qed.

Lemma no_workers_when_count_not_positive_witness :
  ∃ tr s,
    run 0 (heartbeats 3) (launch 1) = Some (tr, s) ∧
    stdout s = ["Still alive!"; "Still alive!"; "Still alive!"]%string.
Proof.
  destruct (proj2 (proj2 (no_workers_when_count_not_positive 0 ltac:(lia)))
              3%nat) as (tr & s & Hrun & _ & Hout & _).
  exists tr, s. split; [exact Hrun|exact Hout].
Defined.

(** ** More on the console *)

Lemma printed_sublist_given (cs : list context) :
  cs ≫= printed
  `sublist_of` (λ d, console_log [VStr "Started: "; d]) <$> (cs ≫= given).
Proof.
  induction cs as [|c cs IH]; [done|].
  rewrite !bind_cons, fmap_app. apply sublist_app; [|done].
  unfold printed, given. destruct (isMainThread c); [done|]. cbn.
  destruct (at_pc c); try apply sublist_nil_l. done.
Qed.

Lemma occurrences_replicate_same `{EqDecision A} (x : A) n :
  occurrences x (replicate n x) = n.
Proof.
  unfold occurrences. induction n as [|n IH]; [done|].
  by rewrite replicate_S, filter_cons_True, length_cons, IH.
Qed.

(** X5.  At every state of every run of one launch: a line on the console
    is the heartbeat or the ["Started:  id"] of an identifier below N; no
    ["Started:  id"] is there twice; it is there exactly when a worker
    holding [id] is in its loop; and the heartbeat is there once per
    tick. *)
Theorem console_at_every_state N sched tr s :
  run N sched (launch 1) = Some (tr, s) →
  (∀ line, line ∈ stdout s →
     line = heartbeat_line ∨ ∃ id, 0 ≤ id < N ∧ line = started_line id) ∧
  (∀ id, (occurrences (started_line id) (stdout s) ≤ 1)%nat) ∧
  (∀ id, started_line id ∈ stdout s ↔
         ∃ k c, contexts s !! k = Some c ∧ isMainThread c = false ∧
                workerData c = VNum id ∧ at_pc c = PWhile) ∧
  occurrences heartbeat_line (stdout s) = ticks tr.
Proof.
  intros Hrun. pose proof (inv_run _ _ _ _ _ Hrun) as Hinv.
  pose proof (inv_lines _ _ _ Hinv) as Hout.
  destruct (single_launch _ _ _ _ Hrun)
    as (c0 & i & _ & _ & Hi & _ & _ & Hdata & _).
  assert (Hall : (λ d, console_log [VStr "Started: "; d])
                   <$> (contexts s ≫= given)
                 = started_line <$> seqZ 0 i).
  { rewrite given_workers. fold (workers s). fold (worker_data s).
    by rewrite Hdata, started_lines_of_data. }
  assert (Hsub : contexts s ≫= printed `sublist_of` started_line <$> seqZ 0 i).
  { rewrite <-Hall. apply printed_sublist_given. }
  assert (Hnd : NoDup (contexts s ≫= printed)).
  { eapply sublist_NoDup; [|exact Hsub].
    apply (NoDup_fmap_2 _), NoDup_seqZ. }
  assert (Hin : ∀ id, started_line id ∈ contexts s ≫= printed ↔
            ∃ k c, contexts s !! k = Some c ∧ isMainThread c = false ∧
                   workerData c = VNum id ∧ at_pc c = PWhile).
  { intros id. rewrite list_elem_of_bind. split.
    - intros (c & Hline & [k Hk]%list_elem_of_lookup).
      unfold printed in Hline.
      destruct (isMainThread c) eqn:Hmain; [by apply elem_of_nil in Hline|].
      destruct (worker_state _ _ _ _ _ _ _ Hrun Hk Hmain)
        as (_ & id' & Hd & _).
      destruct (at_pc c) eqn:Hpc; try (by apply elem_of_nil in Hline).
      apply list_elem_of_singleton in Hline. rewrite Hd in Hline.
      apply (inj started_line) in Hline as ->. by exists k, c.
    - intros (k & c & Hk & Hmain & Hd & Hpc). exists c.
      split; [|by eapply list_elem_of_lookup_2].
      unfold printed. rewrite Hmain, Hpc, Hd. by left. }
  split; [|split; [|split]].
  - intros line. rewrite Hout, elem_of_app.
    intros [Hl|Hl]; [right|left; by apply elem_of_replicate_inv in Hl].
    eapply elem_of_sublist in Hl; [|exact Hsub].
    apply list_elem_of_fmap in Hl as (id & -> & Hid%elem_of_seqZ).
    exists id. split; [lia|done].
  - intros id. rewrite (occurrences_perm _ _ _ Hout), occurrences_app.
    rewrite occurrences_replicate_ne
      by (intros Heq; by apply (started_line_not_heartbeat id)).
    rewrite Nat.add_0_r.
    destruct (decide (started_line id ∈ contexts s ≫= printed)).
    + by rewrite occurrences_NoDup.
    + rewrite occurrences_absent by done. lia.
  - intros id. rewrite <-Hin, Hout, elem_of_app. split; [|by left].
    intros [?|Hl]; [done|]. apply elem_of_replicate_inv in Hl.
    by destruct (started_line_not_heartbeat id).
  - rewrite (occurrences_perm _ _ _ Hout), occurrences_app.
    rewrite occurrences_absent.
    + by rewrite occurrences_replicate_same.
    + intros Hl. eapply elem_of_sublist in Hl; [|exact Hsub].
      apply list_elem_of_fmap in Hl as (id & Heq & _).
      by destruct (started_line_not_heartbeat id).
Qed.

Lemma console_at_every_state_witness :
  ∃ tr s,
    run 8 eight_workers_and_two_ticks (launch 1) = Some (tr, s) ∧
    occurrences heartbeat_line (stdout s) = 2%nat.
Proof.
  destruct (run 8 eight_workers_and_two_ticks (launch 1)) as [[tr s]|] eqn:Hrun;
    [|vm_compute in Hrun; discriminate].
  assert (Hticks : ticks tr = 2%nat).
  { assert (H : ticks ∘ fst <$> run 8 eight_workers_and_two_ticks (launch 1)
                = Some 2%nat) by (vm_compute; reflexivity).
    rewrite Hrun in H. by injection H. }
  exists tr, s. split; [reflexivity|].
  rewrite <-Hticks.
  exact (proj2 (proj2 (proj2 (console_at_every_state 8 _ tr s Hrun)))).
Defined.

(** ** How far startup is *)

Lemma remaining_step N tr s e s' :
  inv N tr s → step N s e s' → (remaining N s ≤ S (remaining N s'))%nat.
Proof.
  intros Hinv Hstep. unfold remaining.
  assert (Hins : ∀ k c c', contexts s !! k = Some c →
            (sum_list_with (pending N) (<[k:=c']> (contexts s)) + pending N c
             = sum_list_with (pending N) (contexts s) + pending N c')%nat)
    by (intros; by apply sum_list_with_insert).
  destruct Hstep as [s k c i Hc Hpc Hi|s k c i Hc Hpc Hi|s k c Hc Hpc
                    |s k c Hc Hpc|s k c j t Hc Ht Hpc Hd|s ms Hms];
    cbn [contexts]; [..|lia].
  - pose proof (inv_threads _ _ _ Hinv _ _ Hc) as Hth.
    unfold thread_inv in Hth. rewrite Hpc in Hth.
    destruct (isMainThread c) eqn:Hmain;
      [|by destruct Hth as (_ & ? & _ & [])].
    specialize (Hins k c (move c (PFor (i + 1))) Hc).
    assert (pending N c = S (S (pending N (move c (PFor (i + 1))))))%nat.
    { unfold pending. cbn. rewrite Hmain, Hpc. lia. }
    rewrite sum_list_with_app.
    change (sum_list_with (pending N) [boot false (VNum i)]) with 1%nat.
    lia.
  - match goal with |- context [<[k:=?c']> _] =>
      specialize (Hins k c c' Hc);
      assert (pending N c ≤ S (pending N c'))%nat
        by (unfold pending; cbn; rewrite Hpc; destruct (isMainThread c); lia)
    end. lia.
  - specialize (Hins k c (move c PWhile) Hc).
    assert (pending N c ≤ S (pending N (move c PWhile)))%nat
      by (unfold pending; cbn; rewrite Hpc; destruct (isMainThread c); lia).
    lia.
  - specialize (Hins k c (move c PWhile) Hc).
    assert (pending N c ≤ S (pending N (move c PWhile)))%nat
      by (unfold pending; cbn; rewrite Hpc; destruct (isMainThread c); lia).
    lia.
  - match goal with |- context [<[k:=?c']> _] =>
      specialize (Hins k c c' Hc);
      assert (pending N c ≤ S (pending N c'))%nat
        by (unfold pending; cbn; rewrite Hpc; destruct (isMainThread c); lia)
    end. lia.
Qed.

Lemma run_remaining N more : ∀ tr s tr' s',
  inv N tr s → run N more s = Some (tr', s') →
  (remaining N s ≤ remaining N s' + length more)%nat.
Proof.
  induction more as [|ch more IH]; intros tr s tr' s' Hinv; cbn [run].
  - intros [= <- <-]. cbn. lia.
  - destruct (exec N ch s) as [[e s1]|] eqn:Hex; cbn; [|done].
    destruct (run N more s1) as [[tr1 s2]|] eqn:Hrun; cbn; [|done].
    intros [= <- <-]. apply exec_step in Hex.
    pose proof (remaining_step _ _ _ _ _ Hinv Hex).
    pose proof (IH _ _ _ _ (inv_step _ _ _ _ _ Hinv Hex) Hrun). lia.
Qed.

Lemma started_up_remaining N s : started_up s = true → remaining N s = 0%nat.
Proof.
  intros Hup. unfold remaining.
  assert (Hall : ∀ k c, contexts s !! k = Some c → pending N c = 0%nat).
  { intros k c Hk. unfold pending.
    rewrite (started_up_lookup _ _ _ Hup Hk). by destruct (isMainThread c). }
  induction (contexts s) as [|c cs IH]; [done|]. cbn.
  rewrite (Hall 0%nat c eq_refl), IH; [done|].
  intros k c' Hk. by apply (Hall (S k)).
Qed.

Lemma remaining_started_up N tr s :
  inv N tr s → remaining N s = 0%nat → started_up s = true.
Proof.
  intros Hinv Hn. apply started_up_intro. intros k c Hk.
  pose proof (sum_list_with_zero _ _ _ _ Hn Hk) as Hp.
  pose proof (inv_threads _ _ _ Hinv _ _ Hk) as Hth.
  unfold thread_inv in Hth. unfold pending in Hp.
  destruct (isMainThread c), (at_pc c); try done; try lia;
    try (by destruct Hth as (_ & []));
    by destruct Hth as (_ & ? & _ & []).
Qed.

Lemma startup_completes_in N n : ∀ tr s,
  inv N tr s → remaining N s = n →
  ∃ more tr' s',
    run N more s = Some (tr', s') ∧ started_up s' = true ∧
    length more = n ∧ Forall (λ ch, ∃ k, ch = Run k) more.
Proof.
  induction n as [|n IH]; intros tr s Hinv Hn.
  - exists [], [], s. repeat split; try done.
    by eapply remaining_started_up.
  - destruct (pending_step _ _ _ _ Hinv Hn) as (k & e & s1 & Hex & Hrem).
    destruct (IH (tr ++ [e]) s1)
      as (more & tr' & s' & Hrun & Hup & Hlen & Hall);
      [eapply inv_step; [done|by eapply exec_step]|done|].
    exists (Run k :: more), (e :: tr'), s'.
    split; [cbn [run]; rewrite Hex; cbn; by rewrite Hrun|].
    split; [done|]. split; [by rewrite length_cons, Hlen|].
    constructor; [by exists k|done].
Qed.

(** X6.  From any state of any run, of one launch or several: startup can
    still be completed, by letting threads run and nothing else, in exactly
    as many steps as statements are pending; no continuation with fewer
    steps completes it; and startup is over exactly when nothing is
    pending.  One launch starts with [2 * N + 1] pending statements. *)
Theorem startup_takes_the_pending_steps N m sched tr s :
  run N sched (launch m) = Some (tr, s) →
  (∃ more tr' s',
     run N more s = Some (tr', s') ∧ started_up s' = true ∧
     length more = remaining N s ∧ Forall (λ ch, ∃ k, ch = Run k) more) ∧
  (∀ more tr' s',
     run N more s = Some (tr', s') → started_up s' = true →
     (remaining N s ≤ length more)%nat) ∧
  (started_up s = true ↔ remaining N s = 0%nat) ∧
  remaining N (launch 1) = (2 * Z.to_nat N + 1)%nat.
Proof.
  intros Hrun. pose proof (inv_run _ _ _ _ _ Hrun) as Hinv.
  split; [by eapply startup_completes_in|].
  split; [|split].
  - intros more tr' s' Hmore Hup.
    pose proof (run_remaining _ _ _ _ _ _ Hinv Hmore) as Hle.
    rewrite (started_up_remaining _ _ Hup) in Hle. lia.
  - split; [apply started_up_remaining|by eapply remaining_started_up].
  - unfold remaining, pending. cbn. lia.
Qed.

Lemma startup_takes_the_pending_steps_witness :
  ∃ more tr' s',
    run 8 more (launch 1) = Some (tr', s') ∧ started_up s' = true ∧
    length more = 17%nat.
Proof.
  destruct (proj1 (startup_takes_the_pending_steps 8 1 [] [] (launch 1)
                     eq_refl)) as (more & tr' & s' & Hrun & Hup & Hlen & _).
  exists more, tr', s'. split; [exact Hrun|]. split; [exact Hup|].
  rewrite Hlen. reflexivity.
Defined.

(** X7.  Whatever the schedule, when startup of one launch is over the
    threads are the same: the coordinator, idle, with the one heartbeat
    timer, not due before 1000 ms, and after it the workers holding
    0, ..., N-1 in this order, each in its loop and without a timer. *)
Theorem startup_outcome_is_unique N sched tr s :
  run N sched (launch 1) = Some (tr, s) → started_up s = true →
  ∃ d, 1000 ≤ d ∧
    contexts s
    = Context true VNull PIdle [heartbeat d]
      :: ((λ id, Context false (VNum id) PWhile []) <$> seqZ 0 N).
Proof.
  intros Hrun Hup. pose proof (inv_run _ _ _ _ _ Hrun) as Hinv.
  destruct (single_launch _ _ _ _ Hrun)
    as (c0 & i & Hc0 & Hmain0 & Hi & _ & Hsp & _ & Hidle).
  pose proof (started_up_lookup _ _ _ Hup Hc0) as Hpc0.
  rewrite Hmain0 in Hpc0. specialize (Hidle Hpc0).
  assert (Hseq : seqZ 0 i = seqZ 0 N).
  { destruct (decide (N ≤ 0)); [by rewrite !seqZ_nil by lia|]. f_equal. lia. }
  rewrite Hseq in Hsp.
  destruct (coordinator_state _ _ _ _ _ Hrun Hc0)
    as [(? & ? & _)|(sp & d & _ & Htm & Hd & _)]; [congruence|].
  pose proof (inv_threads _ _ _ Hinv _ _ Hc0) as Hth.
  unfold thread_inv in Hth. rewrite Hmain0 in Hth. destruct Hth as [Hdata0 _].
  exists d. split; [lia|].
  apply list_eq. intros [|k].
  - rewrite Hc0. cbn. f_equal. destruct c0; by simplify_eq/=.
  - rewrite (lookup_cons _ _ (S k)), list_lookup_fmap.
    destruct (contexts s !! S k) as [c|] eqn:Hk.
    + destruct (lookup_worker _ 1 _ _ _ k _ Hrun Hk) as (v & Hv & Hm & Hdata).
      rewrite Hsp, list_lookup_fmap in Hv.
      destruct (seqZ 0 N !! k) as [id|]; [|done]. injection Hv as [= <-].
      pose proof (started_up_lookup _ _ _ Hup Hk) as Hpc. rewrite Hm in Hpc.
      destruct (worker_state _ _ _ _ _ _ _ Hrun Hk Hm) as (Htmc & _).
      cbn. f_equal. destruct c; by simplify_eq/=.
    + apply lookup_ge_None in Hk.
      assert (Hlen : length (contexts s) = S (length (spawned tr))).
      { rewrite <-(length_fmap ident), (ident_run _ _ _ _ _ Hrun).
        by rewrite length_app, length_fmap. }
      rewrite Hsp, length_fmap in Hlen.
      rewrite (proj2 (lookup_ge_None (seqZ 0 N) k)); [done|lia].
Qed.

Lemma startup_outcome_is_unique_witness :
  ∃ tr s,
    run 8 eight_workers (launch 1) = Some (tr, s) ∧
    contexts s !! 8%nat = Some (Context false (VNum 7) PWhile []).
Proof.
  destruct (run 8 eight_workers (launch 1)) as [[tr s]|] eqn:Hrun;
    [|vm_compute in Hrun; discriminate].
  assert (Hup : started_up s = true).
  { assert (H : started_up ∘ snd <$> run 8 eight_workers (launch 1) = Some true)
      by (vm_compute; reflexivity).
    rewrite Hrun in H. by injection H. }
  destruct (startup_outcome_is_unique 8 eight_workers tr s Hrun Hup)
    as (d & _ & Hcs).
  exists tr, s. split; [reflexivity|]. rewrite Hcs. reflexivity.
Defined.

End WorkerThreadsSpec.

Module PromiseVsAsyncSpec.
Import PromiseVsAsync.

(** No double is both positive and at most zero (a NaN is neither). *)
Lemma leb_zero_not_pos (x : float) :
  (x <=? 0)%float = true → (0 <? x)%float = false.
Proof.
  rewrite leb_spec, ltb_spec.
  change (Prim2SF 0) with (S754_zero false).
  destruct (Prim2SF x) as [[]| [] | | [] m e]; cbn; congruence.
Qed.

(** C10.  [promiseFn] and [asyncFn] give the same promise for every number:
    fulfilled with [number * 2] when [number > 0], rejected with ['Nope']
    when [number <= 0] (and also when the number is NaN, which is
    neither). *)
Theorem promiseFn_asyncFn_equivalent (number : float) :
  promiseFn number = asyncFn number ∧
  ((0 <? number)%float = true →
     promiseFn number = Fulfilled (VNum (number * 2)%float) ∧
     asyncFn number = Fulfilled (VNum (number * 2)%float)) ∧
  ((number <=? 0)%float = true →
     promiseFn number = Rejected (VStr "Nope") ∧
     asyncFn number = Rejected (VStr "Nope")).
Proof.
  unfold promiseFn, asyncFn, new_Promise, async, resolve, reject.
  split; [|split].
  - by destruct (0 <? number)%float.
  - by intros ->.
  - by intros ->%leb_zero_not_pos.
Qed.

Lemma promiseFn_asyncFn_equivalent_witness :
  (promiseFn 2 = Fulfilled (VNum 4) ∧ asyncFn 2 = Fulfilled (VNum 4)) ∧
  (promiseFn (-1) = Rejected (VStr "Nope") ∧
   asyncFn (-1) = Rejected (VStr "Nope")).
Proof.
  split.
  - exact (proj1 (proj2 (promiseFn_asyncFn_equivalent 2)) eq_refl).
  - exact (proj2 (proj2 (promiseFn_asyncFn_equivalent (-1))) eq_refl).
Defined.

End PromiseVsAsyncSpec.

Module PromiseChainsSpec.
Import PromiseVsAsync PromiseChains.

Local Open Scope nat_scope.

(** ** What a call returns *)

Lemma call_eq f x :
  call f x = if (0 <? x)%float
             then Fulfilled (VNum (x * 2)%float)
             else Rejected (VStr "Nope").
Proof.
  destruct f; cbn; unfold promiseFn, asyncFn, new_Promise, async;
    by destruct (0 <? x)%float.
Qed.

Lemma call_settled f x : call f x ≠ Pending.
Proof. rewrite call_eq. by destruct (0 <? x)%float. Qed.

(** ** The lines of the script *)

Lemma statement_eq f x h :
  statement f x h
  = Some (Heap (cells h ++ layout (length (cells h)) [(f, x)])
               (queue h ++ [then_job (call f x, S (length (cells h)))])
               (console h)).
Proof.
  unfold statement, alloc, catch_, then_, then_job, awaiting_catch.
  cbn [cells queue console layout app fst snd].
  pose proof (call_settled f x) as Hst. revert Hst.
  generalize (call f x). intros st Hst.
  rewrite lookup_app_r, Nat.sub_diag by done. cbn [lookup list_lookup].
  assert (Hd : ((cells h ++ [Cell st []]) ++ [Cell Pending []])
                 !! S (length (cells h))
               = Some (Cell Pending [])).
  { rewrite lookup_app_r; rewrite length_app; cbn; [|lia].
    by replace (S (length (cells h)) - (length (cells h) + 1)) with 0 by lia. }
  assert (Hins : ∀ c,
            <[S (length (cells h)) := c]>
              (((cells h ++ [Cell st []]) ++ [Cell Pending []])
               ++ [Cell Pending []])
            = cells h ++ [Cell st []; c; Cell Pending []]).
  { intros c. rewrite <-!(assoc (++)). cbn.
    rewrite insert_app_r_alt by lia.
    by replace (S (length (cells h)) - length (cells h)) with 1 by lia. }
  destruct st as [|v|e]; [done|..]; cbn;
    rewrite !length_app; cbn [length]; rewrite !Nat.add_1_r, Hd; cbn;
    by rewrite Hins.
Qed.

Lemma statements_eq calls h :
  statements calls h
  = Some (Heap (cells h ++ layout (length (cells h)) calls)
               (queue h ++ (then_job <$> chains_of (length (cells h)) calls))
               (console h)).
Proof.
  revert h. induction calls as [|[f x] calls IH]; intros h.
  - cbn. rewrite !app_nil_r. by destruct h.
  - cbn [statements]. rewrite statement_eq. cbn [mbind option_bind].
    rewrite IH. cbn [cells queue console]. rewrite length_app.
    cbn [layout length app chains_of fmap list_fmap].
    replace (length (cells h) + 3) with (3 + length (cells h)) by lia.
    by rewrite <-!(assoc (++)).
Qed.

(** ** Running the microtasks *)

Lemma drain_nil n h : queue h = [] → drain n h = h.
Proof. intros Hq. destruct n; cbn; by rewrite ?Hq. Qed.

Lemma drain_add a b h : drain (a + b) h = drain b (drain a h).
Proof.
  revert h. induction a as [|a IH]; intros h; [done|].
  cbn. destruct (queue h) as [|j rest] eqn:Hq.
  - by rewrite drain_nil.
  - apply IH.
Qed.

Lemma run_then_job st d h :
  st ≠ Pending → cells h !! d = Some (awaiting_catch d) →
  run_job (then_job (st, d)) h
  = Heap (<[d := Cell (after_then st) []]> (cells h))
         (queue h ++ [catch_job (st, d)])
         (console h ++ then_prints st).
Proof.
  intros Hst Hd. unfold then_job, catch_job, run_job, react, settle.
  destruct st as [|v|e]; [done|..]; cbn; rewrite Hd; cbn; [done|].
  by rewrite app_nil_r.
Qed.

Lemma run_catch_job st d h :
  st ≠ Pending → cells h !! S d = Some (Cell Pending []) →
  run_job (catch_job (st, d)) h
  = Heap (<[S d := Cell (Fulfilled VUndefined) []]> (cells h))
         (queue h)
         (console h ++ catch_prints st).
Proof.
  intros Hst Hd. unfold catch_job, run_job, react, settle.
  destruct st as [|v|e]; [done|..]; cbn; rewrite Hd; cbn;
    by rewrite !app_nil_r.
Qed.

(** The [then] jobs at the front of the queue run one after the other; each
    prints what its call was fulfilled with, settles the promise its [then]
    returned and queues the job of its [catch] at the back. *)
Lemma drain_thens cs : ∀ waiting h,
  NoDup (snd <$> cs) →
  (∀ c, c ∈ cs → c.1 ≠ Pending ∧ cells h !! c.2 = Some (awaiting_catch c.2)) →
  queue h = (then_job <$> cs) ++ waiting →
  queue (drain (length cs) h) = waiting ++ (catch_job <$> cs) ∧
  console (drain (length cs) h)
    = console h ++ (cs ≫= λ c, then_prints c.1) ∧
  length (cells (drain (length cs) h)) = length (cells h) ∧
  (∀ i, i ∉ snd <$> cs → cells (drain (length cs) h) !! i = cells h !! i) ∧
  (∀ c, c ∈ cs →
     cells (drain (length cs) h) !! c.2 = Some (Cell (after_then c.1) [])).
Proof.
  induction cs as [|[st d] cs IH]; intros waiting h Hnd Hcs Hq.
  - cbn. rewrite !app_nil_r. repeat split; try done.
    intros c Hc. by apply elem_of_nil in Hc.
  - cbn [length drain]. rewrite Hq. cbn [fmap list_fmap app].
    rewrite fmap_cons in Hnd. apply NoDup_cons in Hnd as [Hd Hnd].
    destruct (Hcs (st, d)) as [Hst Hcell]; [left|]. cbn in Hst, Hcell.
    assert (Hlt : d < length (cells h)) by by eapply lookup_lt_Some.
    rewrite run_then_job by done. cbn [cells queue console].
    set (h1 := Heap _ _ _).
    destruct (IH (waiting ++ [catch_job (st, d)]) h1)
      as (Hq' & Hout & Hlen & Hframe & Hdone);
      [done| |by rewrite (assoc (++))|].
    { intros c Hc. destruct (Hcs c) as [? Hcc]; [by right|].
      split; [done|]. unfold h1. cbn.
      rewrite list_lookup_insert_ne; [done|].
      intros Heq. apply Hd, list_elem_of_fmap. by exists c. }
    split; [by rewrite Hq', <-(assoc (++))|].
    split; [by rewrite Hout, bind_cons, (assoc (++))|].
    split; [by rewrite Hlen; unfold h1; cbn; rewrite length_insert|].
    split.
    + intros i Hi. rewrite ?fmap_cons in Hi.
      apply not_elem_of_cons in Hi as [? ?].
      rewrite Hframe by done. unfold h1. cbn.
      by rewrite list_lookup_insert_ne.
    + intros c [->|Hc]%elem_of_cons; [|by apply Hdone].
      cbn. rewrite Hframe by done. unfold h1. cbn.
      by rewrite list_lookup_insert_eq.
Qed.

(** The [catch] jobs run one after the other; each prints what its call was
    rejected with and fulfils the last promise of its chain. *)
Lemma drain_catches cs : ∀ h,
  NoDup (snd <$> cs) →
  (∀ c, c ∈ cs → c.1 ≠ Pending ∧ cells h !! S c.2 = Some (Cell Pending [])) →
  queue h = catch_job <$> cs →
  queue (drain (length cs) h) = [] ∧
  console (drain (length cs) h)
    = console h ++ (cs ≫= λ c, catch_prints c.1) ∧
  length (cells (drain (length cs) h)) = length (cells h) ∧
  (∀ i, (∀ c, c ∈ cs → i ≠ S c.2) →
        cells (drain (length cs) h) !! i = cells h !! i) ∧
  (∀ c, c ∈ cs →
     cells (drain (length cs) h) !! S c.2
     = Some (Cell (Fulfilled VUndefined) [])).
Proof.
  induction cs as [|[st d] cs IH]; intros h Hnd Hcs Hq.
  - cbn. rewrite !app_nil_r. repeat split; try done.
    intros c Hc. by apply elem_of_nil in Hc.
  - cbn [length drain]. rewrite Hq. cbn [fmap list_fmap].
    rewrite fmap_cons in Hnd. apply NoDup_cons in Hnd as [Hd Hnd].
    destruct (Hcs (st, d)) as [Hst Hcell]; [left|]. cbn in Hst, Hcell.
    assert (Hlt : S d < length (cells h)) by by eapply lookup_lt_Some.
    rewrite run_catch_job by done. cbn [cells queue console].
    set (h1 := Heap _ _ _).
    assert (Hother : ∀ c, c ∈ cs → S c.2 ≠ S d).
    { intros c Hc [= Heq]. apply Hd, list_elem_of_fmap. by exists c. }
    destruct (IH h1) as (Hq' & Hout & Hlen & Hframe & Hdone); [done| |done|].
    { intros c Hc. destruct (Hcs c) as [? Hcc]; [by right|].
      split; [done|]. unfold h1. cbn.
      rewrite list_lookup_insert_ne; [done|]. intros Heq.
      by apply (Hother c). }
    split; [done|].
    split; [by rewrite Hout, bind_cons, (assoc (++))|].
    split; [by rewrite Hlen; unfold h1; cbn; rewrite length_insert|].
    split.
    + intros i Hi. rewrite Hframe by (intros; apply Hi; by right).
      unfold h1. cbn. rewrite list_lookup_insert_ne; [done|].
      intros <-. by apply (Hi (st, d)); [left|].
    + intros c [->|Hc]%elem_of_cons; [|by apply Hdone].
      cbn. rewrite Hframe by (intros c Hc; by apply not_eq_sym, Hother).
      unfold h1. cbn. by rewrite list_lookup_insert_eq.
Qed.

(** ** The promises and jobs a batch of lines leaves *)

Lemma length_chains_of base calls :
  length (chains_of base calls) = length calls.
Proof.
  revert base. induction calls as [|[f x] calls IH]; intros base; [done|].
  cbn. by rewrite IH.
Qed.

Lemma length_layout base calls : length (layout base calls) = 3 * length calls.
Proof.
  revert base. induction calls as [|[f x] calls IH]; intros base; [done|].
  cbn. rewrite IH. lia.
Qed.

Lemma layout_lookup calls : ∀ base i f x,
  calls !! i = Some (f, x) →
  chains_of base calls !! i = Some (call f x, base + 3 * i + 1) ∧
  layout base calls !! (3 * i) = Some (Cell (call f x) []) ∧
  layout base calls !! (3 * i + 1) = Some (awaiting_catch (base + 3 * i + 1)) ∧
  layout base calls !! (3 * i + 2) = Some (Cell Pending []).
Proof.
  induction calls as [|[g y] calls IH]; intros base [|i] f x Hi;
    [done|done|..].
  - injection Hi as [= -> ->]. cbn.
    by rewrite Nat.add_0_r, Nat.add_1_r.
  - destruct (IH (3 + base) i f x Hi) as (Hc & H0 & H1 & H2).
    replace (3 + base + 3 * i + 1) with (base + 3 * S i + 1) in Hc, H1 by lia.
    replace (3 * S i) with (3 + 3 * i) by lia.
    replace (3 + 3 * i + 1) with (3 + (3 * i + 1)) by lia.
    replace (3 + 3 * i + 2) with (3 + (3 * i + 2)) by lia.
    cbn [chains_of layout]. rewrite lookup_cons.
    rewrite !(lookup_app_r [_; _; _]) by (cbn; lia).
    cbn [length].
    replace (3 + 3 * i - 3) with (3 * i) by lia.
    replace (3 + (3 * i + 1) - 3) with (3 * i + 1) by lia.
    replace (3 + (3 * i + 2) - 3) with (3 * i + 2) by lia.
    replace (base + (3 + 3 * i) + 1) with (base + 3 * S i + 1) by lia.
    done.
Qed.

Lemma chains_of_elem base calls c :
  c ∈ chains_of base calls →
  ∃ i f x, calls !! i = Some (f, x) ∧ c = (call f x, base + 3 * i + 1).
Proof.
  intros [i Hi]%list_elem_of_lookup.
  destruct (calls !! i) as [[f x]|] eqn:Hcall.
  - destruct (layout_lookup calls base i f x Hcall) as (Hc & _).
    exists i, f, x. split; [done|]. congruence.
  - apply lookup_ge_None in Hcall. apply lookup_lt_Some in Hi.
    rewrite length_chains_of in Hi. lia.
Qed.

Lemma NoDup_chains_of base calls : NoDup (snd <$> chains_of base calls).
Proof.
  apply NoDup_alt. intros i j d.
  rewrite !list_lookup_fmap.
  destruct (chains_of base calls !! i) as [ci|] eqn:Hi; [|done].
  destruct (chains_of base calls !! j) as [cj|] eqn:Hj; [|done].
  intros [= <-] [= Heq].
  assert (Hci : ∃ f x, ci = (call f x, base + 3 * i + 1)).
  { destruct (calls !! i) as [[f x]|] eqn:Hcall.
    - destruct (layout_lookup calls base i f x Hcall) as (Hc & _).
      exists f, x. congruence.
    - apply lookup_ge_None in Hcall. apply lookup_lt_Some in Hi.
      rewrite length_chains_of in Hi. lia. }
  assert (Hcj : ∃ f x, cj = (call f x, base + 3 * j + 1)).
  { destruct (calls !! j) as [[f x]|] eqn:Hcall.
    - destruct (layout_lookup calls base j f x Hcall) as (Hc & _).
      exists f, x. congruence.
    - apply lookup_ge_None in Hcall. apply lookup_lt_Some in Hj.
      rewrite length_chains_of in Hj. lia. }
  destruct Hci as (? & ? & ->), Hcj as (? & ? & ->). cbn [fst snd] in Heq. lia.
Qed.

Lemma then_prints_chains base calls :
  chains_of base calls ≫= (λ c, then_prints c.1)
  = (λ x, VNum (x * 2)%float) <$> accepted calls.
Proof.
  unfold accepted. revert base.
  induction calls as [|[f x] calls IH]; intros base; [done|].
  cbn [chains_of]. rewrite bind_cons, IH, fmap_cons, filter_cons. cbn [fst snd].
  rewrite call_eq. case_decide as Hx; [by rewrite Hx|].
  by destruct (0 <? x)%float.
Qed.

Lemma catch_prints_chains base calls :
  chains_of base calls ≫= (λ c, catch_prints c.1)
  = (λ _, VStr "Nope") <$> refused calls.
Proof.
  unfold refused. revert base.
  induction calls as [|[f x] calls IH]; intros base; [done|].
  cbn [chains_of]. rewrite bind_cons, IH, fmap_cons, filter_cons. cbn [fst snd].
  rewrite call_eq. case_decide as Hx; [by rewrite Hx|].
  by destruct (0 <? x)%float.
Qed.

(** A batch of lines on a heap that has no microtask left: the lines add
    three promises each, all microtasks run within two jobs per line, first
    the [then] jobs and then the [catch] jobs, and nothing of what was
    there before is touched. *)
Lemma batch_runs calls fuel h :
  queue h = [] → 2 * length calls ≤ fuel →
  ∃ h', run_batch fuel calls h = Some h' ∧
    queue h' = [] ∧
    console h' = console h ++ printed_by calls ∧
    length (cells h') = length (cells h) + 3 * length calls ∧
    (∀ i, i < length (cells h) → cells h' !! i = cells h !! i) ∧
    (∀ i f x, calls !! i = Some (f, x) →
       cells h' !! (length (cells h) + 3 * i) = Some (Cell (call f x) []) ∧
       cells h' !! (length (cells h) + 3 * i + 1)
         = Some (Cell (after_then (call f x)) []) ∧
       cells h' !! (length (cells h) + 3 * i + 2)
         = Some (Cell (Fulfilled VUndefined) [])).
Proof.
  intros Hq Hfuel. unfold run_batch. rewrite statements_eq, Hq.
  cbn -[Nat.mul drain].
  set (base := length (cells h)). set (cs := chains_of base calls).
  set (h1 := Heap _ _ _). eexists. split; [done|].
  assert (Hlook : ∀ k, layout base calls !! k = cells h1 !! (base + k)).
  { intros k. unfold h1. cbn. rewrite lookup_app_r by (unfold base; lia).
    f_equal. unfold base. lia. }
  assert (Hcs : ∀ c, c ∈ cs →
            ∃ i f x, calls !! i = Some (f, x)
                     ∧ c = (call f x, base + 3 * i + 1)).
  { intros c Hc. by apply chains_of_elem. }
  destruct (drain_thens cs [] h1)
    as (Hq1 & Hout1 & Hlen1 & Hframe1 & Hdone1).
  { apply NoDup_chains_of. }
  { intros c (i & f & x & Hi & ->)%Hcs. cbn [fst snd].
    split; [apply call_settled|].
    destruct (layout_lookup calls base i f x Hi) as (_ & _ & H1 & _).
    rewrite Hlook in H1. rewrite <-H1. f_equal. lia. }
  { unfold h1. cbn. by rewrite app_nil_r. }
  set (h2 := drain (length cs) h1) in *.
  destruct (drain_catches cs h2)
    as (Hq2 & Hout2 & Hlen2 & Hframe2 & Hdone2).
  { apply NoDup_chains_of. }
  { intros c Hc. destruct (Hcs c Hc) as (i & f & x & Hi & ->). cbn [fst snd].
    split; [apply call_settled|].
    rewrite Hframe1.
    - destruct (layout_lookup calls base i f x Hi) as (_ & _ & _ & H2).
      rewrite Hlook in H2. rewrite <-H2. f_equal. lia.
    - intros (c' & Heq & (j & ? & ? & _ & ->)%Hcs)%list_elem_of_fmap.
      cbn [fst snd] in Heq. lia. }
  { done. }
  set (h3 := drain (length cs) h2) in *.
  assert (Hlen : length cs = length calls) by apply length_chains_of.
  assert (drain fuel h1 = h3) as ->.
  { replace fuel with (length cs + (length cs + (fuel - 2 * length calls)))
      by lia.
    rewrite !drain_add. fold h2. fold h3. by apply drain_nil. }
  split; [done|].
  split.
  { rewrite Hout2, Hout1. unfold h1, printed_by. cbn.
    unfold cs.
    by rewrite then_prints_chains, catch_prints_chains, (assoc (++)). }
  split.
  { rewrite Hlen2, Hlen1. unfold h1. cbn.
    by rewrite length_app, length_layout. }
  split.
  { intros i Hi. rewrite Hframe2, Hframe1.
    - unfold h1. cbn. by rewrite lookup_app_l.
    - intros (c' & Heq & (j & ? & ? & _ & ->)%Hcs)%list_elem_of_fmap.
      cbn [fst snd] in Heq. unfold base in Heq. lia.
    - intros c (j & ? & ? & _ & ->)%Hcs. cbn [fst snd]. unfold base. lia. }
  intros i f x Hi.
  destruct (layout_lookup calls base i f x Hi) as (Hc & H0 & _).
  assert (Hin : (call f x, base + 3 * i + 1) ∈ cs)
    by by eapply list_elem_of_lookup_2.
  split; [|split].
  - rewrite Hframe2, Hframe1.
    + by rewrite <-Hlook.
    + intros (c' & Heq & (j & ? & ? & _ & ->)%Hcs)%list_elem_of_fmap.
      cbn [fst snd] in Heq. lia.
    + intros c (j & ? & ? & _ & ->)%Hcs. cbn [fst snd]. lia.
  - rewrite Hframe2.
    + apply (Hdone1 _ Hin).
    + intros c (j & ? & ? & _ & ->)%Hcs. cbn [fst snd]. lia.
  - replace (base + 3 * i + 2) with (S (base + 3 * i + 1)) by lia.
    apply (Hdone2 _ Hin).
Qed.

Lemma then_jobs_ready calls h c :
  c ∈ chains_of (length (cells h)) calls →
  c.1 ≠ Pending ∧
  (cells h ++ layout (length (cells h)) calls) !! c.2
  = Some (awaiting_catch c.2).
Proof.
  intros (i & f & x & Hi & ->)%chains_of_elem. cbn [fst snd].
  split; [apply call_settled|].
  destruct (layout_lookup calls (length (cells h)) i f x Hi)
    as (_ & _ & H1 & _).
  rewrite lookup_app_r by lia. rewrite <-H1. f_equal. lia.
Qed.

Lemma length_accepted_refused calls :
  length (accepted calls) + length (refused calls) = length calls.
Proof.
  unfold accepted, refused.
  induction calls as [|[f x] calls IH]; [done|].
  rewrite fmap_cons, !filter_cons. cbn [snd length].
  destruct (0 <? x)%float; repeat case_decide; try done; cbn; lia.
Qed.

(** X1.  Any number of lines [f(x).then(console.log).catch(console.log)],
    with either function at each: once the microtasks have run (two jobs
    per line are enough, and more fuel changes nothing) the queue is empty
    and the console holds first the doubles of the numbers that are
    positive, in the order of the lines, and then one ['Nope'] for each
    number that is not; one value per line. *)
Theorem successes_print_before_failures calls fuel :
  2 * length calls ≤ fuel →
  ∃ h', run_batch fuel calls empty = Some h' ∧
    queue h' = [] ∧
    console h'
    = ((λ x, VNum (x * 2)%float) <$> accepted calls)
      ++ ((λ _, VStr "Nope") <$> refused calls) ∧
    length (console h') = length calls.
Proof.
  intros Hfuel.
  destruct (batch_runs calls fuel empty eq_refl Hfuel)
    as (h' & Hrun & Hq & Hout & _).
  exists h'. split; [done|]. split; [done|]. cbn in Hout.
  split; [done|].
  rewrite Hout. unfold printed_by.
  rewrite length_app, !length_fmap. apply length_accepted_refused.
Qed.

Lemma successes_print_before_failures_witness :
  console <$> run_batch 8 the_script empty
  = Some [VNum 4; VNum 4; VStr "Nope"; VStr "Nope"].
Proof.
  destruct (successes_print_before_failures the_script 8)
    as (h' & Hrun & _ & Hout & _).
  - cbn. lia.
  - rewrite Hrun. cbn [fmap option_fmap option_map]. rewrite Hout.
    vm_compute. reflexivity.
Defined.

(** X2.  After such a batch and its microtasks no promise is pending and no
    reaction is left waiting: of the three promises of line [i], the first
    holds what the call returned and the last, the one [catch] returned, is
    fulfilled with [undefined], whether the call was fulfilled or
    rejected. *)
Theorem every_rejection_is_handled calls fuel :
  2 * length calls ≤ fuel →
  ∃ h', run_batch fuel calls empty = Some h' ∧
    length (cells h') = 3 * length calls ∧
    Forall (λ c, state c ≠ Pending ∧ reactions c = []) (cells h') ∧
    ∀ i f x, calls !! i = Some (f, x) →
      cells h' !! (3 * i) = Some (Cell (call f x) []) ∧
      cells h' !! (3 * i + 2) = Some (Cell (Fulfilled VUndefined) []).
Proof.
  intros Hfuel.
  destruct (batch_runs calls fuel empty eq_refl Hfuel)
    as (h' & Hrun & _ & _ & Hlen & _ & Hcells).
  cbn [empty cells length] in Hlen, Hcells.
  exists h'. split; [done|]. split; [done|]. split.
  - apply Forall_lookup. intros j c Hj.
    assert (Hlt : j < 3 * length calls).
    { apply lookup_lt_Some in Hj. by rewrite Hlen in Hj. }
    pose proof (Nat.div_mod_eq j 3) as Hdm.
    pose proof (Nat.mod_upper_bound j 3 ltac:(done)) as Hr.
    destruct (calls !! (j / 3)) as [[f x]|] eqn:Hcall.
    2: { apply lookup_ge_None in Hcall. lia. }
    destruct (Hcells _ _ _ Hcall) as (H0 & H1 & H2). cbn [plus] in H0, H1, H2.
    pose proof (call_settled f x) as Hst.
    destruct (j `mod` 3) as [|[|[|r]]] eqn:Hmod; [..|lia].
    + replace j with (3 * (j / 3)) in Hj by lia.
      rewrite H0 in Hj. by injection Hj as [= <-].
    + replace j with (3 * (j / 3) + 1) in Hj by lia.
      rewrite H1 in Hj. injection Hj as [= <-]. cbn.
      split; [|done]. by destruct (call f x).
    + replace j with (3 * (j / 3) + 2) in Hj by lia.
      rewrite H2 in Hj. by injection Hj as [= <-].
  - intros i f x Hi. destruct (Hcells _ _ _ Hi) as (H0 & _ & H2).
    by split.
Qed.

Lemma every_rejection_is_handled_witness :
  (λ h, cells h !! 5) <$> run_batch 8 the_script empty
  = Some (Some (Cell (Fulfilled VUndefined) [])).
Proof.
  destruct (every_rejection_is_handled the_script 8)
    as (h' & Hrun & _ & _ & Hcells).
  - cbn. lia.
  - rewrite Hrun. cbn [fmap option_fmap option_map]. do 2 f_equal.
    exact (proj2 (Hcells 1 PromiseFn (-1)%float eq_refl)).
Defined.

(** X3.  Batches whose microtasks are run in between print one after the
    other: the second batch starts from the heap the first one left, prints
    its own values after those of the first, and changes none of the
    promises it found. *)
Theorem drained_batches_print_in_sequence calls1 calls2 fuel1 fuel2 :
  2 * length calls1 ≤ fuel1 → 2 * length calls2 ≤ fuel2 →
  ∃ h1 h2,
    run_batch fuel1 calls1 empty = Some h1 ∧
    run_batch fuel2 calls2 h1 = Some h2 ∧
    queue h2 = [] ∧
    console h2 = printed_by calls1 ++ printed_by calls2 ∧
    length (cells h2) = 3 * (length calls1 + length calls2) ∧
    ∀ i, i < length (cells h1) → cells h2 !! i = cells h1 !! i.
Proof.
  intros Hf1 Hf2.
  destruct (batch_runs calls1 fuel1 empty eq_refl Hf1)
    as (h1 & Hrun1 & Hq1 & Hout1 & Hlen1 & _).
  destruct (batch_runs calls2 fuel2 h1 Hq1 Hf2)
    as (h2 & Hrun2 & Hq2 & Hout2 & Hlen2 & Hframe & _).
  exists h1, h2. split; [done|]. split; [done|]. split; [done|].
  split; [by rewrite Hout2, Hout1|].
  split; [|done]. rewrite Hlen2, Hlen1. cbn. lia.
Qed.

Lemma drained_batches_print_in_sequence_witness :
  ∃ h1 h2,
    run_batch 4 [(PromiseFn, 2); (PromiseFn, -1)]%float empty = Some h1 ∧
    run_batch 4 [(AsyncFn, 2); (AsyncFn, -1)]%float h1 = Some h2 ∧
    console h2 = [VNum 4; VStr "Nope"; VNum 4; VStr "Nope"].
Proof.
  destruct (drained_batches_print_in_sequence
              [(PromiseFn, 2); (PromiseFn, -1)]%float
              [(AsyncFn, 2); (AsyncFn, -1)]%float 4 4)
    as (h1 & h2 & Hrun1 & Hrun2 & _ & Hout & _).
  - cbn. lia.
  - cbn. lia.
  - exists h1, h2. split; [exact Hrun1|]. split; [exact Hrun2|].
    rewrite Hout. vm_compute. reflexivity.
Defined.

(** X4.  Nothing is printed while the lines themselves run; after as many
    microtasks as there are lines exactly the doubles of the positive
    numbers have been printed and one [catch] job per line is queued: a
    rejection is reported one round later than a result. *)
Theorem failures_wait_one_more_round calls :
  ∃ h1,
    statements calls empty = Some h1 ∧
    console h1 = [] ∧
    length (queue h1) = length calls ∧
    console (drain (length calls) h1)
    = (λ x, VNum (x * 2)%float) <$> accepted calls ∧
    queue (drain (length calls) h1) = catch_job <$> chains_of 0 calls.
Proof.
  rewrite statements_eq. cbn [empty cells queue console length app].
  eexists. split; [done|]. cbn [console queue].
  split; [done|].
  split; [by rewrite length_fmap, length_chains_of|].
  set (h1 := Heap _ _ _).
  destruct (drain_thens (chains_of 0 calls) [] h1)
    as (Hq & Hout & _).
  { apply NoDup_chains_of. }
  { intros c Hc. by apply (then_jobs_ready calls empty c). }
  { unfold h1. cbn. by rewrite app_nil_r. }
  rewrite length_chains_of in Hq, Hout.
  split; [|done]. rewrite Hout. unfold h1. cbn.
  apply then_prints_chains.
Qed.

End PromiseChainsSpec.
